(** * The Windows runner entry point, [windows/runner/main.cpp]

    [wWinMain] attaches a console, initialises COM, resolves the window
    title from the [APP_CONFIG] environment variable, creates the Flutter
    window and pumps the message loop.  The title resolution is a pure
    function on wide strings; the routine itself is an interaction tree
    over the operating-system calls it makes, run against a model of the
    answers the operating system gives. *)

From Stdlib Require Import NArith ZArith List String Ascii Bool Lia Morphisms.
From ITree Require Import ITree ITreeFacts Eq.Shallow.
From Paco Require Import paco.
Import ListNotations.
Import ITreeNotations.
Local Open Scope itree_scope.

(** ** Wide strings *)

Module WString.

(** [wchar_t] is an unsigned 16-bit code unit on Windows.  The routine
    only compares code units for equality, so they are kept as plain
    naturals. *)
Definition wchar_t : Type := N.

(** [std::wstring]: the sequence of code units, without a terminator. *)
Definition wstring : Type := list wchar_t.

(** The wide character literal [L'c']. *)
Definition Lc (c : ascii) : wchar_t := N_of_ascii c.

(** The wide string literal [L"..."], for the ASCII literals of the file. *)
Definition L (s : string) : wstring := List.map Lc (list_ascii_of_string s).

(** [s.find(c)]: the index of the first occurrence of [c] in [s];
    [std::wstring::npos] is [None]. *)
Fixpoint find (s : wstring) (c : wchar_t) : option nat :=
  match s with
  | [] => None
  | x :: s' =>
      if N.eqb x c then Some 0
      else match find s' c with
           | Some i => Some (S i)
           | None => None
           end
  end.

(** [s.substr(pos, n)]: at most [n] code units starting at [pos].  The
    C++ function throws when [pos] exceeds the size; the routine calls it
    at [pos = 0] only. *)
Definition substr (s : wstring) (pos n : nat) : wstring :=
  firstn n (skipn pos s).

(** [a == b] on wide strings: same length and same code units. *)
Fixpoint eqb (a b : wstring) : bool :=
  match a, b with
  | [], [] => true
  | x :: a', y :: b' => N.eqb x y && eqb a' b'
  | _, _ => false
  end.

(** [towlower] on the ASCII range, used to say that two keys differ in
    letter case only. *)
Definition towlower (c : wchar_t) : wchar_t :=
  if (N.leb 65 c && N.leb c 90)%bool then (c + 32)%N else c.

Definition same_up_to_case (a b : wstring) : Prop :=
  List.map towlower a = List.map towlower b.

End WString.

Import WString.

(** ** Title resolution *)

(** [errno_t], the result of [_wdupenv_s]: zero on success. *)
Definition errno_t : Type := Z.

(** The separator of the configuration value and the title used when no
    key is found. *)
Definition comma : wchar_t := Lc ",".

Definition default_title : wstring := L "EUR/USD Chart Viewer".

(** The value of [windowTitle] when [Create] is called, as a function of
    what [_wdupenv_s] returned ([err]) and stored in [configEnv] ([None] is
    the null pointer, [Some cs] a buffer holding the C string [cs]). *)
Definition windowTitle (err : errno_t) (configEnv : option wstring) : wstring :=
  let windowTitle := default_title in
  if Z.eqb err 0 then
    match configEnv with
    | Some cs =>
        let configStr := cs in
        match find configStr comma with
        | Some separatorPos =>
            let titleKey := substr configStr 0 separatorPos in
            if eqb titleKey (L "EURUSD-m5") then L "EUR/USD-5m"
            else if eqb titleKey (L "EURUSD-m30") then L "EUR/USD-30m"
            else if eqb titleKey (L "EURUSD-h4") then L "EUR/USD-4h"
            else titleKey
        | None => windowTitle
        end
    | None => windowTitle
    end
  else windowTitle.

Arguments windowTitle err%_Z configEnv.

(** The keys the lookup recognises and the titles it maps them to. *)
Definition recognized_keys : list wstring :=
  [L "EURUSD-m5"; L "EURUSD-m30"; L "EURUSD-h4"].

Definition mapped_titles : list wstring :=
  [L "EUR/USD-5m"; L "EUR/USD-30m"; L "EUR/USD-4h"].


(** ** The calls the routine makes *)

(** Win32 [BOOL] is an [int]; zero is [FALSE]. *)
Definition BOOL : Type := Z.

Definition HRESULT : Type := Z.

(** Modelled from the spec: [Win32Window::Point] and [Win32Window::Size]
    are declared in win32_window.h, which is not among the sources; the
    spec speaks of an origin (10,10) and a size 1280x720, hence a pair of
    coordinates and a pair of extents. *)
Record Point : Type := { x : Z; y : Z }.
Record Size : Type := { width : Z; height : Z }.

(** The part of a Win32 [MSG] the model keeps. *)
Record MSG : Type := { message : Z; wParam : Z; lParam : Z }.

(** Constants of the platform headers: [ATTACH_PARENT_PROCESS] is
    [(DWORD)-1], [COINIT_APARTMENTTHREADED] is [0x2], and <stdlib.h> has
    [EXIT_SUCCESS] as 0 and [EXIT_FAILURE] as 1. *)
Definition ATTACH_PARENT_PROCESS : Z := 4294967295.
Definition COINIT_APARTMENTTHREADED : Z := 2.
Definition EXIT_SUCCESS : Z := 0.
Definition EXIT_FAILURE : Z := 1.

(** Every call [wWinMain] makes into the operating system, the C runtime
    or the Flutter embedding, with its arguments, in the order of the
    source.  [DartProject] and [FlutterWindow] are the two constructors.
    None of the callees is defined in this file ([CreateAndAttachConsole]
    and [GetCommandLineArguments] come from utils.h, the window from
    flutter_window.h): the routine is verified for every answer they may
    give. *)
Inductive call : Type :=
| AttachConsole (dwProcessId : Z)
| IsDebuggerPresent
| CreateAndAttachConsole
| CoInitializeEx (dwCoInit : Z)
| DartProject (path : wstring)
| GetCommandLineArguments
| set_dart_entrypoint_arguments (args : list string)
| FlutterWindow
| wdupenv_s (varname : wstring)
| free
| Create (title : wstring) (origin : Point) (size : Size)
| SetQuitOnClose (quit_on_close : bool)
| GetMessage
| TranslateMessage (msg : MSG)
| DispatchMessage (msg : MSG)
| CoUninitialize.

(** What each call hands back to the routine.  [_wdupenv_s] returns its
    error code and stores a buffer, or the null pointer, in [configEnv];
    [GetMessage] returns its [BOOL] and fills in [msg]. *)
Definition result (c : call) : Type :=
  match c with
  | AttachConsole _ => BOOL
  | IsDebuggerPresent => BOOL
  | CoInitializeEx _ => HRESULT
  | GetCommandLineArguments => list string
  | wdupenv_s _ => (errno_t * option wstring)%type
  | Create _ _ _ => bool
  | GetMessage => (BOOL * MSG)%type
  | TranslateMessage _ => BOOL
  | DispatchMessage _ => Z
  | CreateAndAttachConsole | DartProject _ | set_dart_entrypoint_arguments _
  | FlutterWindow | free | SetQuitOnClose _ | CoUninitialize => unit
  end.

Variant winE : Type -> Type :=
| Call (c : call) : winE (result c).

Definition os (c : call) : itree winE (result c) := ITree.trigger (Call c).

(** ** The entry routine *)

(** [while (::GetMessage(&msg, nullptr, 0, 0)) { ::TranslateMessage(&msg);
    ::DispatchMessage(&msg); }]: the loop goes on for every non-zero
    result, the error result [-1] included. *)
Definition message_loop : itree winE unit :=
  ITree.iter (fun _ : unit =>
    '(ret, msg) <- os GetMessage;;
    if Z.eqb ret 0 then Ret (inr tt)
    else
      os (TranslateMessage msg);;
      os (DispatchMessage msg);;
      Ret (inl tt)) tt.

(** What follows a successful [Create]. *)
Definition run_window : itree winE Z :=
  os (SetQuitOnClose true);;
  message_loop;;
  os CoUninitialize;;
  Ret EXIT_SUCCESS.

Definition wWinMain : itree winE Z :=
  attached <- os (AttachConsole ATTACH_PARENT_PROCESS);;
  (if Z.eqb attached 0
   then
     debugger <- os IsDebuggerPresent;;
     if Z.eqb debugger 0 then Ret tt else os CreateAndAttachConsole
   else Ret tt);;
  os (CoInitializeEx COINIT_APARTMENTTHREADED);;
  os (DartProject (L "data"));;
  command_line_arguments <- os GetCommandLineArguments;;
  os (set_dart_entrypoint_arguments command_line_arguments);;
  os FlutterWindow;;
  let origin := {| x := 10; y := 10 |} in
  let size := {| width := 1280; height := 720 |} in
  '(err, configEnv) <- os (wdupenv_s (L "APP_CONFIG"));;
  (if Z.eqb err 0
   then match configEnv with
        | Some _ => os free
        | None => Ret tt
        end
   else Ret tt);;
  created <- os (Create (windowTitle err configEnv) origin size);;
  if negb created then Ret EXIT_FAILURE
  else run_window.

(** ** The environment the routine runs in *)

(** The answers the outside gives, the messages still to be delivered and
    the calls made so far, oldest first. *)
Record World : Type := {
  attach_console : BOOL;
  debugger_present : BOOL;
  co_initialize : HRESULT;
  command_line : list string;
  environment : wstring -> errno_t * option wstring;
  window_created : bool;
  messages : list (BOOL * MSG);
  calls : list call
}.

(** World [w] with [ms] left to deliver and [cs] as the calls made. *)
Definition set_state (ms : list (BOOL * MSG)) (cs : list call) (w : World) : World :=
  {| attach_console := attach_console w;
     debugger_present := debugger_present w;
     co_initialize := co_initialize w;
     command_line := command_line w;
     environment := environment w;
     window_created := window_created w;
     messages := ms;
     calls := cs |}.

Definition logged (c : call) (w : World) : World :=
  set_state (messages w) (calls w ++ [c]) w.

Definition delivered (w : World) : World :=
  set_state (tl (messages w)) (calls w) w.

(** The world after call [c] and what the call returns; [None] when the
    call never returns: [GetMessage] blocks while no message is left. *)
Definition answer (c : call) (w : World) : World * option (result c) :=
  let w' := logged c w in
  match c return World * option (result c) with
  | AttachConsole _ => (w', Some (attach_console w))
  | IsDebuggerPresent => (w', Some (debugger_present w))
  | CoInitializeEx _ => (w', Some (co_initialize w))
  | GetCommandLineArguments => (w', Some (command_line w))
  | wdupenv_s varname => (w', Some (environment w varname))
  | Create _ _ _ => (w', Some (window_created w))
  | GetMessage =>
      match messages w with
      | [] => (w', None)
      | m :: _ => (delivered w', Some m)
      end
  | TranslateMessage _ => (w', Some 0%Z)
  | DispatchMessage _ => (w', Some 0%Z)
  | CreateAndAttachConsole => (w', Some tt)
  | DartProject _ => (w', Some tt)
  | set_dart_entrypoint_arguments _ => (w', Some tt)
  | FlutterWindow => (w', Some tt)
  | free => (w', Some tt)
  | SetQuitOnClose _ => (w', Some tt)
  | CoUninitialize => (w', Some tt)
  end.

Definition handle {X : Type} (e : winE X) : World -> World * option X :=
  match e with Call c => answer c end.

(** How far a run got: the routine returned [r], it is blocked in a call
    that never returns, or the steps allowed ran out. *)
Inductive outcome (R : Type) : Type :=
| Exited (w : World) (r : R)
| Blocked (w : World)
| Running (w : World).

Arguments Exited {R} w r.
Arguments Blocked {R} w.
Arguments Running {R} w.

Definition world_of {R : Type} (o : outcome R) : World :=
  match o with
  | Exited w _ | Blocked w | Running w => w
  end.

(** [run fuel t w]: at most [fuel] steps of [t] from world [w]. *)
Fixpoint run {R : Type} (fuel : nat) (t : itree winE R) (w : World) : outcome R :=
  match fuel with
  | O => Running w
  | S fuel' =>
      match observe t with
      | RetF r => Exited w r
      | TauF t' => run fuel' t' w
      | VisF e k =>
          match handle e w with
          | (w', Some v) => run fuel' (k v) w'
          | (w', None) => Blocked w'
          end
      end
  end.

(** The routine returns [r], leaving the world [w']. *)
Definition exits {R : Type} (t : itree winE R) (w w' : World) (r : R) : Prop :=
  exists fuel, run fuel t w = Exited w' r.

(** The world after the calls [cs] have been logged. *)
Definition after_calls (cs : list call) (w : World) : World :=
  set_state (messages w) (calls w ++ cs) w.

(** The title the routine resolves in world [w]. *)
Definition configured_title (w : World) : wstring :=
  windowTitle (fst (environment w (L "APP_CONFIG")))
              (snd (environment w (L "APP_CONFIG"))).

(** The calls of the routine up to and including [Create], in order. *)
Definition console_calls (w : World) : list call :=
  AttachConsole ATTACH_PARENT_PROCESS ::
  (if Z.eqb (attach_console w) 0
   then IsDebuggerPresent ::
        (if Z.eqb (debugger_present w) 0 then [] else [CreateAndAttachConsole])
   else []).

Definition config_calls (w : World) : list call :=
  wdupenv_s (L "APP_CONFIG") ::
  (if Z.eqb (fst (environment w (L "APP_CONFIG"))) 0
   then match snd (environment w (L "APP_CONFIG")) with
        | Some _ => [free]
        | None => []
        end
   else []).

Definition create_call (w : World) : call :=
  Create (configured_title w) {| x := 10; y := 10 |}
         {| width := 1280; height := 720 |}.

Definition startup_calls (w : World) : list call :=
  console_calls w ++
  [CoInitializeEx COINIT_APARTMENTTHREADED; DartProject (L "data");
   GetCommandLineArguments; set_dart_entrypoint_arguments (command_line w);
   FlutterWindow] ++
  config_calls w ++ [create_call w].

(** The calls of the message loop while it delivers the messages [ms]. *)
Definition pump_calls (ms : list (BOOL * MSG)) : list call :=
  flat_map (fun m => [GetMessage; TranslateMessage (snd m); DispatchMessage (snd m)]) ms.

(** The calls of a run that ends on the quit message after [before]. *)
Definition normal_calls (w : World) (before : list (BOOL * MSG)) : list call :=
  startup_calls w ++ SetQuitOnClose true :: pump_calls before ++
  [GetMessage; CoUninitialize].

(** [GetMessage] returns zero for the quit message and for no other. *)
Definition is_quit (m : BOOL * MSG) : bool := Z.eqb (fst m) 0.

(** Worlds to run the routine in: the console attaches, [APP_CONFIG] has
    the given value, if any, and [Create] answers [created]. *)
Definition example_environment (value : option wstring)
  : wstring -> errno_t * option wstring :=
  fun varname =>
    if eqb varname (L "APP_CONFIG") then (0%Z, value) else (0%Z, None).

Definition example_world (created : bool) (value : option wstring)
    (ms : list (BOOL * MSG)) : World :=
  {| attach_console := 1%Z;
     debugger_present := 0%Z;
     co_initialize := 0%Z;
     command_line := [];
     environment := example_environment value;
     window_created := created;
     messages := ms;
     calls := [] |}.

(** A paint message (WM_PAINT) followed by the quit message (WM_QUIT). *)
Definition paint_then_quit : list (BOOL * MSG) :=
  [(1%Z, {| message := 15; wParam := 0; lParam := 0 |});
   (0%Z, {| message := 18; wParam := 0; lParam := 0 |})].

(** [P] is an invariant of the log along the first [n] steps of [t]: when
    it holds of every call made before, it holds of every call made so
    far, however far the run got. *)
Definition keeps_upto (P : call -> Prop) (n : nat) {R : Type} (t : itree winE R) : Prop :=
  forall (fuel : nat) (w : World),
    fuel <= n -> Forall P (calls w) -> Forall P (calls (world_of (run fuel t w))).

Definition keeps (P : call -> Prop) {R : Type} (t : itree winE R) : Prop :=
  forall n, keeps_upto P n t.

(** The geometry every window of the routine is created with. *)
Definition fixed_geometry (c : call) : Prop :=
  match c with
  | Create _ origin size =>
      origin = {| x := 10; y := 10 |} /\ size = {| width := 1280; height := 720 |}
  | _ => True
  end.

(** ** The whole run, call by call *)

(** The calls of the message loop on the queue [ms], up to the
    [GetMessage] that finds the quit message or finds the queue empty. *)
Fixpoint loop_script (ms : list (BOOL * MSG)) : list call :=
  match ms with
  | [] => [GetMessage]
  | m :: ms' =>
      if is_quit m then [GetMessage]
      else GetMessage :: TranslateMessage (snd m) :: DispatchMessage (snd m)
           :: loop_script ms'
  end.

(** What is left of the queue once the quit message has been taken. *)
Fixpoint after_quit (ms : list (BOOL * MSG)) : list (BOOL * MSG) :=
  match ms with
  | [] => []
  | m :: ms' => if is_quit m then ms' else after_quit ms'
  end.

(** Every call of a run from world [w], in order. *)
Definition script (w : World) : list call :=
  startup_calls w ++
  (if window_created w
   then SetQuitOnClose true :: loop_script (messages w) ++
        (if existsb is_quit (messages w) then [CoUninitialize] else [])
   else []).

(** Where a run from world [w] ends. *)
Definition final_outcome (w : World) : outcome Z :=
  if window_created w then
    if existsb is_quit (messages w)
    then Exited (set_state (after_quit (messages w)) (calls w ++ script w) w)
                EXIT_SUCCESS
    else Blocked (set_state [] (calls w ++ script w) w)
  else Exited (set_state (messages w) (calls w ++ script w) w) EXIT_FAILURE.

(** Steps after which a run from [w] has ended. *)
Definition steps_bound (w : World) : nat :=
  List.length (startup_calls w) + 4 * List.length (messages w) + 4.

(** The calls the routine has made after [fuel] steps from world [w]. *)
Definition calls_made (fuel : nat) (w : World) : list call :=
  skipn (List.length (calls w)) (calls (world_of (run fuel wWinMain w))).

(** [a] comes before every [b] in [l]. *)
Definition precedes (a b : call) (l : list call) : Prop :=
  forall pre post, l = pre ++ b :: post -> In a pre.

(** World [w] where [CoInitializeEx] answers [hr]. *)
Definition with_co_initialize (hr : HRESULT) (w : World) : World :=
  {| attach_console := attach_console w;
     debugger_present := debugger_present w;
     co_initialize := hr;
     command_line := command_line w;
     environment := environment w;
     window_created := window_created w;
     messages := messages w;
     calls := calls w |}.

Definition map_outcome {R : Type} (f : World -> World) (o : outcome R) : outcome R :=
  match o with
  | Exited w r => Exited (f w) r
  | Blocked w => Blocked (f w)
  | Running w => Running (f w)
  end.

(** The calls of the window phase and those of the console set-up. *)
Definition window_call (c : call) : Prop :=
  match c with
  | SetQuitOnClose true | GetMessage | TranslateMessage _ | DispatchMessage _
  | CoUninitialize => True
  | _ => False
  end.


(** Counting the calls of one kind in a log. *)
Definition count_calls (p : call -> bool) (l : list call) : nat :=
  List.length (filter p l).

Definition is_Create (c : call) : bool :=
  match c with Create _ _ _ => true | _ => false end.

Definition is_free (c : call) : bool :=
  match c with free => true | _ => false end.

Definition is_CoInitializeEx (c : call) : bool :=
  match c with CoInitializeEx _ => true | _ => false end.


(** World [w] with another environment. *)
Definition with_environment (env : wstring -> errno_t * option wstring)
    (w : World) : World :=
  {| attach_console := attach_console w;
     debugger_present := debugger_present w;
     co_initialize := co_initialize w;
     command_line := command_line w;
     environment := env;
     window_created := window_created w;
     messages := messages w;
     calls := calls w |}.

(** A world where no console is attached and a debugger is present. *)
Definition debugged_world (created : bool) (value : option wstring)
    (ms : list (BOOL * MSG)) : World :=
  {| attach_console := 0%Z;
     debugger_present := 1%Z;
     co_initialize := 0%Z;
     command_line := ["--verbose"%string];
     environment := example_environment value;
     window_created := created;
     messages := ms;
     calls := [] |}.

(** ** Facts about wide strings *)

Lemma eqb_eq (a b : wstring) : eqb a b = true <-> a = b.
Proof.
  revert b; induction a as [|x a IH]; intros [|y b]; simpl;
    try (split; [discriminate | discriminate]); try tauto.
  rewrite andb_true_iff, N.eqb_eq, IH.
  split; [intros [-> ->]; reflexivity | intros H; inversion H; auto].
Qed.

Lemma eqb_neq (a b : wstring) : eqb a b = false <-> a <> b.
Proof.
  rewrite <- eqb_eq. destruct (eqb a b); split; congruence.
Qed.

(** [find] returns the length of the longest prefix free of [c]. *)
Lemma find_app_sep (k r : wstring) (c : wchar_t) :
  ~ In c k -> find (k ++ c :: r) c = Some (List.length k).
Proof.
  induction k as [|x k IH]; simpl; intros Hk.
  - rewrite N.eqb_refl. reflexivity.
  - destruct (N.eqb_spec x c) as [->|_]; [tauto|].
    rewrite IH by tauto. reflexivity.
Qed.

Lemma find_none (s : wstring) (c : wchar_t) :
  ~ In c s -> find s c = None.
Proof.
  induction s as [|x s IH]; simpl; intros Hs; [reflexivity|].
  destruct (N.eqb_spec x c) as [->|_]; [tauto|].
  rewrite IH by tauto. reflexivity.
Qed.

Lemma substr_prefix (k r : wstring) : substr (k ++ r) 0 (List.length k) = k.
Proof.
  unfold substr; simpl. induction k; simpl; [destruct r|]; congruence.
Qed.

(** The key the routine extracts from ["<key>,<suffix>"]. *)
Lemma windowTitle_key (key suffix : wstring) :
  ~ In comma key ->
  windowTitle 0 (Some (key ++ comma :: suffix)) =
    if eqb key (L "EURUSD-m5") then L "EUR/USD-5m"
    else if eqb key (L "EURUSD-m30") then L "EUR/USD-30m"
    else if eqb key (L "EURUSD-h4") then L "EUR/USD-4h"
    else key.
Proof.
  intros Hk. unfold windowTitle.
  cbv beta iota delta [Z.eqb].
  rewrite (find_app_sep _ _ _ Hk). cbv zeta.
  rewrite substr_prefix. reflexivity.
Qed.

Lemma windowTitle_unknown_key (key suffix : wstring) :
  ~ In comma key -> ~ In key recognized_keys ->
  windowTitle 0 (Some (key ++ comma :: suffix)) = key.
Proof.
  intros Hk Hn. rewrite (windowTitle_key _ _ Hk).
  assert (H1 : eqb key (L "EURUSD-m5") = false)
    by (apply eqb_neq; intros ->; apply Hn; simpl; auto).
  assert (H2 : eqb key (L "EURUSD-m30") = false)
    by (apply eqb_neq; intros ->; apply Hn; simpl; auto).
  assert (H3 : eqb key (L "EURUSD-h4") = false)
    by (apply eqb_neq; intros ->; apply Hn; simpl; auto).
  rewrite H1, H2, H3. reflexivity.
Qed.

Lemma windowTitle_error (err : errno_t) (configEnv : option wstring) :
  Z.eqb err 0 = false -> windowTitle err configEnv = default_title.
Proof. intros H. unfold windowTitle. rewrite H. reflexivity. Qed.

(** ** Facts about runs *)

Lemma run_mono {R : Type} (n : nat) :
  forall (t : itree winE R) (w w' : World) (r : R) (m : nat),
    run n t w = Exited w' r -> n <= m -> run m t w = Exited w' r.
Proof.
  induction n as [|n IH]; intros t w w' r m H Hle; simpl in H; [discriminate|].
  destruct m as [|m]; [lia|]. simpl.
  destruct (observe t) as [v|t'|X e k]; [exact H| apply IH; [exact H|lia] |].
  destruct (handle e w) as [w1 [v|]]; [apply IH; [exact H|lia] | exact H].
Qed.

(** A run is a function of the world: the routine exits in one way only. *)
Lemma exits_unique {R : Type} (t : itree winE R) (w w1 w2 : World) (r1 r2 : R) :
  exits t w w1 r1 -> exits t w w2 r2 -> w1 = w2 /\ r1 = r2.
Proof.
  intros [n1 H1] [n2 H2].
  apply (run_mono _ _ _ _ _ (n1 + n2)) in H1; [|lia].
  apply (run_mono _ _ _ _ _ (n1 + n2)) in H2; [|lia].
  rewrite H1 in H2. inversion H2. auto.
Qed.

Lemma run_bind {A B : Type} (k : A -> itree winE B) (n : nat) :
  forall (t : itree winE A) (w w1 w2 : World) (v : A) (r : B) (m : nat),
    run n t w = Exited w1 v ->
    run m (k v) w1 = Exited w2 r ->
    run (n + m) (ITree.bind t k) w = Exited w2 r.
Proof.
  induction n as [|n IH]; intros t w w1 w2 v r m Ht Hk; simpl in Ht; [discriminate|].
  change (S n + m) with (S (n + m)). cbn [run]. rewrite observe_bind.
  destruct (observe t) as [v'|t'|X e h]; cbn [run observe _observe].
  - inversion Ht; subst.
    apply (run_mono _ _ _ _ _ (S (n + m))) in Hk; [exact Hk|lia].
  - eapply IH; eassumption.
  - destruct (handle e w) as [w' [a|]]; [eapply IH; eassumption | discriminate].
Qed.

Lemma run_bind_inv {A B : Type} (k : A -> itree winE B) (n : nat) :
  forall (t : itree winE A) (w w2 : World) (r : B),
    run n (ITree.bind t k) w = Exited w2 r ->
    exists w1 v, run n t w = Exited w1 v /\ run n (k v) w1 = Exited w2 r.
Proof.
  induction n as [|n IH]; intros t w w2 r H; [discriminate|].
  cbn [run] in H |- *. rewrite observe_bind in H.
  destruct (observe t) as [v'|t'|X e h]; cbn [run observe _observe] in H.
  - exists w, v'. split; [reflexivity | exact H].
  - destruct (IH _ _ _ _ H) as (w1 & v & Ht & Hk).
    exists w1, v. split; [exact Ht|].
    apply (run_mono _ _ _ _ _ (S n)) in Hk; [exact Hk|lia].
  - destruct (handle e w) as [w' [a|]]; [|discriminate].
    destruct (IH _ _ _ _ H) as (w1 & v & Ht & Hk).
    exists w1, v. split; [exact Ht|].
    apply (run_mono _ _ _ _ _ (S n)) in Hk; [exact Hk|lia].
Qed.

Lemma exits_bind {A B : Type} (t : itree winE A) (k : A -> itree winE B)
    (w w1 w2 : World) (v : A) (r : B) :
  exits t w w1 v -> exits (k v) w1 w2 r -> exits (ITree.bind t k) w w2 r.
Proof.
  intros [n Hn] [m Hm]. exists (n + m). eapply run_bind; eassumption.
Qed.

Lemma exits_bind_inv {A B : Type} (t : itree winE A) (k : A -> itree winE B)
    (w w2 : World) (r : B) :
  exits (ITree.bind t k) w w2 r ->
  exists w1 v, exits t w w1 v /\ exits (k v) w1 w2 r.
Proof.
  intros [n H]. destruct (run_bind_inv _ _ _ _ _ _ H) as (w1 & v & Ht & Hk).
  exists w1, v. split; eexists; eassumption.
Qed.

(** ** The log of calls *)

Lemma answer_calls (c : call) (w : World) :
  calls (fst (answer c w)) = calls w ++ [c].
Proof.
  destruct c; try reflexivity. cbn. destruct (messages w); reflexivity.
Qed.

(** The log only grows. *)
Lemma run_calls_extend {R : Type} (fuel : nat) :
  forall (t : itree winE R) (w : World),
    exists cs, calls (world_of (run fuel t w)) = calls w ++ cs.
Proof.
  induction fuel as [|fuel IH]; intros t w; cbn [run].
  - exists []. cbn. rewrite app_nil_r. reflexivity.
  - destruct (observe t) as [r|t'|X e k].
    + exists []. cbn. rewrite app_nil_r. reflexivity.
    + apply IH.
    + destruct e as [c]. cbn [handle].
      pose proof (answer_calls c w) as Hc.
      destruct (answer c w) as [w' [v|]]; cbn [fst] in Hc.
      * destruct (IH (k v) w') as [cs Hcs]. exists (c :: cs).
        rewrite Hcs, Hc, <- app_assoc. reflexivity.
      * exists [c]. exact Hc.
Qed.

(** A longer run only adds calls to the log of a shorter one. *)
Lemma run_calls_prefix {R : Type} (fuel : nat) :
  forall (t : itree winE R) (w : World) (fuel' : nat),
    fuel <= fuel' ->
    exists cs,
      calls (world_of (run fuel' t w)) = calls (world_of (run fuel t w)) ++ cs.
Proof.
  induction fuel as [|fuel IH]; intros t w fuel' Hle.
  - apply run_calls_extend.
  - destruct fuel' as [|fuel']; [lia|]. cbn [run].
    destruct (observe t) as [r|t'|X e k].
    + exists []. rewrite app_nil_r. reflexivity.
    + apply IH. lia.
    + destruct (handle e w) as [w' [v|]]; [apply IH; lia|].
      exists []. rewrite app_nil_r. reflexivity.
Qed.

(** Strongly bisimilar trees run alike, so the monad laws of the library
    rewrite under [run]. *)
Lemma run_eq_itree {R : Type} (n : nat) :
  forall (t1 t2 : itree winE R) (w : World), t1 ≅ t2 -> run n t1 w = run n t2 w.
Proof.
  induction n as [|n IH]; intros t1 t2 w H; [reflexivity|].
  cbn [run]. punfold H. red in H.
  destruct H; try discriminate; pclearbot.
  - subst; reflexivity.
  - apply IH; exact REL.
  - destruct (handle e w) as [w' [v|]]; [apply IH; apply REL | reflexivity].
Qed.

#[global] Instance run_Proper {R : Type} (n : nat) :
  Proper (eq_itree eq ==> eq ==> eq) (@run R n).
Proof. intros t1 t2 H w ? <-. apply run_eq_itree; exact H. Qed.

Lemma run_ret {R : Type} (n : nat) (r : R) (w : World) :
  run (S n) (Ret r) w = Exited w r.
Proof. reflexivity. Qed.

Lemma run_os {R : Type} (c : call) (k : result c -> itree winE R) (n : nat) (w : World) :
  run (S n) (ITree.bind (os c) k) w =
  match answer c w with
  | (w', Some v) => run n (k v) w'
  | (w', None) => Blocked w'
  end.
Proof.
  unfold os. rewrite bind_trigger. reflexivity.
Qed.

(** ** The routine up to [Create] *)

Lemma logged_after (c : call) (cs : list call) (w : World) :
  logged c (after_calls cs w) = after_calls (cs ++ [c]) w.
Proof.
  unfold logged, after_calls, set_state; simpl. rewrite <- app_assoc. reflexivity.
Qed.

Lemma logged_first (c : call) (w : World) : logged c w = after_calls [c] w.
Proof. reflexivity. Qed.

Ltac step :=
  first [ match goal with
          | |- context [run (S ?n) (@ITree.bind _ ?X ?R (os ?c) ?k) ?w] =>
              change (@ITree.bind winE X R (os c) k)
                with (@ITree.bind winE (result c) R (os c) k);
              rewrite (run_os c k n w)
          end;
          cbv beta iota zeta delta [answer];
          cbn [logged delivered set_state attach_console debugger_present
               co_initialize command_line environment window_created]
        | rewrite bind_ret_l
        | rewrite bind_bind ].

Lemma startup (w : World) :
  forall m,
    run (List.length (startup_calls w) + m) wWinMain w =
    run m (if negb (window_created w) then Ret EXIT_FAILURE else run_window)
        (after_calls (startup_calls w) w).
Proof.
  intros m.
  unfold startup_calls, console_calls, config_calls, create_call, configured_title.
  unfold wWinMain.
  destruct (environment w (L "APP_CONFIG")) as [err configEnv] eqn:Henv.
  cbn [fst snd].
  destruct (Z.eqb (attach_console w) 0) eqn:Ha;
    [destruct (Z.eqb (debugger_present w) 0) eqn:Hd|];
    (destruct (Z.eqb err 0) eqn:He; [destruct configEnv as [cs|]|]);
    cbn [List.length app Nat.add];
    step; rewrite Ha; repeat step; rewrite ?Hd; repeat step.
  all: rewrite Henv; rewrite ?He; repeat step;
    rewrite (logged_first _ w), !logged_after; cbn [app]; reflexivity.
Qed.

(** ** The message loop *)

Lemma message_loop_unfold :
  message_loop ≅
  (m <- os GetMessage;;
   if Z.eqb (fst m) 0 then Ret tt
   else os (TranslateMessage (snd m));; os (DispatchMessage (snd m));;
        Tau message_loop).
Proof.
  unfold message_loop at 1. rewrite unfold_iter. rewrite bind_bind.
  apply (eq_itree_clo_bind eq (UU := eq)); [reflexivity|].
  intros [ret msg] ? <-. cbn [fst snd].
  destruct (Z.eqb ret 0).
  - rewrite bind_ret_l. reflexivity.
  - rewrite !bind_bind.
    apply (eq_itree_clo_bind eq (UU := eq)); [reflexivity|]. intros _ _ _.
    rewrite bind_bind.
    apply (eq_itree_clo_bind eq (UU := eq)); [reflexivity|]. intros _ _ _.
    rewrite bind_ret_l. reflexivity.
Qed.

Lemma run_tau {R : Type} (n : nat) (t : itree winE R) (w : World) :
  run (S n) (Tau t) w = run n t w.
Proof. reflexivity. Qed.

(** One turn of the loop, by what [GetMessage] finds. *)
Lemma loop_blocked {R : Type} (k : unit -> itree winE R) (n : nat) (w : World) :
  messages w = [] ->
  run (S n) (ITree.bind message_loop k) w = Blocked (logged GetMessage w).
Proof.
  intros Hm. rewrite message_loop_unfold, bind_bind.
  rewrite run_os. cbv beta iota zeta delta [answer]. rewrite Hm. reflexivity.
Qed.

Lemma loop_quit {R : Type} (k : unit -> itree winE R) (n : nat) (w : World)
    (m : BOOL * MSG) (ms : list (BOOL * MSG)) :
  messages w = m :: ms -> is_quit m = true ->
  run (S n) (ITree.bind message_loop k) w =
  run n (k tt) (set_state ms (calls w ++ [GetMessage]) w).
Proof.
  unfold is_quit. intros Hm Hq. rewrite message_loop_unfold, bind_bind.
  rewrite run_os. cbv beta iota zeta delta [answer]. rewrite Hm, Hq.
  rewrite bind_ret_l. f_equal.
  unfold delivered, logged, set_state; cbn. rewrite Hm. reflexivity.
Qed.

Lemma loop_pump {R : Type} (k : unit -> itree winE R) (n : nat) (w : World)
    (m : BOOL * MSG) (ms : list (BOOL * MSG)) :
  messages w = m :: ms -> is_quit m = false ->
  run (4 + n) (ITree.bind message_loop k) w =
  run n (ITree.bind message_loop k)
      (set_state ms (calls w ++ pump_calls [m]) w).
Proof.
  unfold is_quit. intros Hm Hq. rewrite message_loop_unfold at 1.
  rewrite bind_bind. cbn [Nat.add].
  rewrite run_os. cbv beta iota zeta delta [answer]. rewrite Hm, Hq.
  repeat step.
  rewrite bind_tau, run_tau. f_equal.
  unfold logged, delivered, set_state; cbn. rewrite ?Hm, <- ?app_assoc. reflexivity.
Qed.

(** The loop delivers every message before the first quit message. *)
Lemma loop_pumps {R : Type} (k : unit -> itree winE R) (n : nat)
    (before : list (BOOL * MSG)) :
  forall (w : World) (rest : list (BOOL * MSG)),
    messages w = before ++ rest ->
    forallb (fun m => negb (is_quit m)) before = true ->
    run (4 * List.length before + n) (ITree.bind message_loop k) w =
    run n (ITree.bind message_loop k)
        (set_state rest (calls w ++ pump_calls before) w).
Proof.
  induction before as [|m before IH]; intros w rest Hm Hq.
  - cbn [List.length Nat.mul Nat.add pump_calls flat_map].
    rewrite app_nil_r. f_equal.
    destruct w; unfold set_state; cbn in *. congruence.
  - cbn [forallb] in Hq. apply andb_true_iff in Hq as [Hq1 Hq].
    apply negb_true_iff in Hq1.
    replace (4 * List.length (m :: before) + n)
      with (4 + (4 * List.length before + n)) by (cbn [List.length]; lia).
    rewrite (loop_pump k _ w m (before ++ rest) Hm Hq1).
    rewrite (IH (set_state (before ++ rest) (calls w ++ pump_calls [m]) w)
               rest eq_refl Hq). f_equal.
    unfold set_state; cbn. rewrite <- !app_assoc. reflexivity.
Qed.

Lemma quit_split (ms : list (BOOL * MSG)) :
  existsb is_quit ms = true ->
  exists before q after,
    ms = before ++ q :: after /\
    forallb (fun m => negb (is_quit m)) before = true /\
    is_quit q = true.
Proof.
  induction ms as [|m ms IH]; cbn [existsb]; intros H; [discriminate|].
  destruct (is_quit m) eqn:Hq.
  - exists [], m, ms. auto.
  - destruct (IH H) as (before & q & after & -> & Hb & Hq').
    exists (m :: before), q, after. cbn [forallb]. rewrite Hq, Hb. auto.
Qed.

(** ** The two ways out of the routine *)

Lemma run_window_exits (w : World) (before after : list (BOOL * MSG)) (q : BOOL * MSG) :
  messages w = before ++ q :: after ->
  forallb (fun m => negb (is_quit m)) before = true ->
  is_quit q = true ->
  exits run_window w
    (set_state after
       (calls w ++ SetQuitOnClose true :: pump_calls before ++
        [GetMessage; CoUninitialize]) w)
    EXIT_SUCCESS.
Proof.
  intros Hm Hb Hq. exists (1 + (4 * List.length before + 3)).
  unfold run_window. cbn [Nat.add]. step.
  rewrite (loop_pumps _ 3 before (logged (SetQuitOnClose true) w)
             (q :: after) Hm Hb).
  match goal with
  | |- run _ _ ?w0 = _ => rewrite (loop_quit _ 2 w0 q after eq_refl Hq)
  end.
  step. rewrite run_ret. f_equal.
  unfold logged, set_state; cbn. rewrite <- !app_assoc. reflexivity.
Qed.

Lemma exits_calls_extend {R : Type} (t : itree winE R) (w w' : World) (r : R) :
  exits t w w' r -> exists cs, calls w' = calls w ++ cs.
Proof.
  intros [n H]. destruct (run_calls_extend n t w) as [cs Hcs].
  rewrite H in Hcs. exists cs. exact Hcs.
Qed.

Lemma run_window_exits_inv (w w' : World) (r : Z) :
  exits run_window w w' r ->
  r = EXIT_SUCCESS /\
  exists cs, calls w' = calls w ++ cs ++ [CoUninitialize].
Proof.
  unfold run_window. intros H.
  apply exits_bind_inv in H as (w1 & [] & H1 & H).
  apply exits_bind_inv in H as (w2 & [] & H2 & [n H]).
  apply exits_calls_extend in H1 as [cs1 H1].
  apply exits_calls_extend in H2 as [cs2 H2].
  destruct n as [|n]; [discriminate|].
  rewrite run_os in H. cbv beta iota zeta delta [answer] in H.
  destruct n as [|n]; [discriminate|].
  rewrite run_ret in H. inversion H. split; [reflexivity|].
  exists (cs1 ++ cs2). unfold logged, set_state; cbn [calls].
  rewrite H2, H1, <- !app_assoc. reflexivity.
Qed.

Lemma wWinMain_exits (w w' : World) (r : Z) :
  exits wWinMain w w' r <->
  exits (if negb (window_created w) then Ret EXIT_FAILURE else run_window)
        (after_calls (startup_calls w) w) w' r.
Proof.
  split; intros [n H].
  - exists n. rewrite <- startup.
    apply (run_mono _ _ _ _ _ _ H). lia.
  - exists (List.length (startup_calls w) + n). rewrite startup. exact H.
Qed.

Lemma startup_calls_kinds (w : World) :
  ~ In GetMessage (startup_calls w) /\ ~ In CoUninitialize (startup_calls w).
Proof.
  unfold startup_calls, console_calls, config_calls, create_call.
  destruct (Z.eqb (attach_console w) 0), (Z.eqb (debugger_present w) 0),
    (Z.eqb (fst (environment w (L "APP_CONFIG"))) 0),
    (snd (environment w (L "APP_CONFIG")));
    cbn; split; intros H;
    repeat (destruct H as [H|H]; [discriminate|]); exact H.
Qed.

(** ** Invariants of the log *)

Section Invariant.

Variable P : call -> Prop.

Lemma keeps_ret {R : Type} (n : nat) (r : R) : keeps_upto P n (Ret r).
Proof. intros [|fuel] w _ Hw; exact Hw. Qed.

Lemma keeps_os (n : nat) (c : call) : P c -> keeps_upto P n (os c).
Proof.
  intros Hc [|fuel] w _ Hw; [exact Hw|].
  cbn [run os ITree.trigger observe _observe handle].
  pose proof (answer_calls c w) as Hl.
  assert (Hw' : Forall P (calls (fst (answer c w)))).
  { rewrite Hl. apply Forall_app. split; [exact Hw | repeat constructor; exact Hc]. }
  destruct (answer c w) as [w' [v|]]; cbn [fst] in Hw'; [|exact Hw'].
  destruct fuel; exact Hw'.
Qed.

Lemma keeps_tau {R : Type} (n : nat) (t : itree winE R) :
  keeps_upto P n t -> keeps_upto P (S n) (Tau t).
Proof.
  intros Ht [|fuel] w Hle Hw; [exact Hw|].
  cbn [run observe _observe]. apply Ht; [lia | exact Hw].
Qed.

Lemma keeps_bind {A B : Type} (k : A -> itree winE B) (n : nat) :
  (forall v, keeps_upto P n (k v)) ->
  forall t : itree winE A, keeps_upto P n t -> keeps_upto P n (ITree.bind t k).
Proof.
  intros Hk t Ht fuel w Hle Hw.
  assert (H : forall f, f <= fuel -> Forall P (calls (world_of (run f t w))))
    by (intros f Hf; apply Ht; [lia | exact Hw]).
  clear Ht Hw. revert t w H.
  induction fuel as [|fuel IH]; intros t w H; [exact (H 0 (le_n 0))|].
  pose proof (H 1 ltac:(lia)) as H1.
  pose proof (fun f (Hf : f <= fuel) => H (S f) ltac:(lia)) as HS.
  cbn [run] in H1, HS |- *. rewrite observe_bind.
  destruct (observe t) as [v|t'|X e h]; cbn [observe _observe].
  - apply (Hk v (S fuel) w Hle H1).
  - apply IH; [lia | exact HS].
  - destruct (handle e w) as [w' [v|]]; [|exact H1].
    apply IH; [lia | exact HS].
Qed.

(** The loop makes its three calls only. *)
Lemma keeps_message_loop :
  P GetMessage -> (forall msg, P (TranslateMessage msg)) ->
  (forall msg, P (DispatchMessage msg)) -> keeps P message_loop.
Proof.
  intros Hg Ht Hd n. induction n as [|n IH].
  - intros fuel w Hle Hw. replace fuel with 0 by lia. exact Hw.
  - intros fuel w Hle Hw. rewrite message_loop_unfold. revert fuel w Hle Hw.
    apply keeps_bind; [|apply keeps_os; exact Hg].
    intros [ret msg]. cbn [fst snd]. destruct (Z.eqb ret 0).
    + apply keeps_ret.
    + apply (keeps_bind (A := result (TranslateMessage msg)));
        [|apply keeps_os; apply Ht].
      intros _.
      apply (keeps_bind (A := result (DispatchMessage msg)));
        [|apply keeps_os; apply Hd].
      intros _. apply keeps_tau. exact IH.
Qed.

End Invariant.

Ltac keeps_step :=
  lazymatch goal with
  | |- keeps_upto _ _ (Ret _) => apply keeps_ret
  | |- keeps_upto ?P ?n (os ?c) => apply (keeps_os P n c); cbn; auto
  | |- keeps_upto _ _ (ITree.bind _ _) => apply keeps_bind; [intros ?|]
  | |- keeps_upto _ _ (if ?b then _ else _) => destruct b
  | |- keeps_upto _ _ (match ?x with Some _ => _ | None => _ end) => destruct x
  | |- keeps_upto _ _ (let (_, _) := ?x in _) => destruct x
  end.

Lemma keeps_run_window (P : call -> Prop) :
  P (SetQuitOnClose true) -> P GetMessage ->
  (forall msg, P (TranslateMessage msg)) ->
  (forall msg, P (DispatchMessage msg)) -> P CoUninitialize ->
  keeps P run_window.
Proof.
  intros Hs Hg Ht Hd Hc n. unfold run_window.
  keeps_step; [|keeps_step].
  keeps_step; [|apply keeps_message_loop; assumption].
  repeat keeps_step.
Qed.

(** Every window the routine creates has the fixed origin and size. *)
Lemma keeps_fixed_geometry : keeps fixed_geometry wWinMain.
Proof.
  intros n. unfold wWinMain.
  repeat keeps_step.
  apply keeps_run_window; cbn; auto.
Qed.

(** ** Title resolution: the claims *)

(** C1. A configuration value ["<key>,<suffix>"] with a recognized key
    resolves through the fixed table whatever the suffix: [EURUSD-m5] to
    ["EUR/USD-5m"], [EURUSD-m30] to ["EUR/USD-30m"] and [EURUSD-h4] to
    ["EUR/USD-4h"]. *)
Theorem recognized_key_title (suffix : wstring) :
  windowTitle 0 (Some (L "EURUSD-m5," ++ suffix)) = L "EUR/USD-5m" /\
  windowTitle 0 (Some (L "EURUSD-m30," ++ suffix)) = L "EUR/USD-30m" /\
  windowTitle 0 (Some (L "EURUSD-h4," ++ suffix)) = L "EUR/USD-4h".
Proof. repeat split; reflexivity. Qed.

(** C2. When the variable is absent ([configEnv] is the null pointer) or
    its value holds no comma, the title is the default
    ["EUR/USD Chart Viewer"]. *)
Theorem default_title_without_separator (err : errno_t) (configEnv : option wstring) :
  (forall cs, configEnv = Some cs -> ~ In comma cs) ->
  windowTitle err configEnv = L "EUR/USD Chart Viewer".
Proof.
  intros H. unfold windowTitle.
  destruct (Z.eqb err 0); [|reflexivity].
  destruct configEnv as [cs|]; [|reflexivity].
  cbv zeta. rewrite (find_none cs comma (H cs eq_refl)). reflexivity.
Qed.

Lemma default_title_without_separator_witness :
  windowTitle 0 (Some (L "nocomma")) = L "EUR/USD Chart Viewer" /\
  windowTitle 0 None = L "EUR/USD Chart Viewer".
Proof.
  split.
  - apply (default_title_without_separator 0%Z (Some (L "nocomma"))).
    intros cs Hcs. inversion Hcs; subst. cbv. intros H.
    repeat (destruct H as [H|H]; [discriminate|]). exact H.
  - apply (default_title_without_separator 0%Z None).
    intros cs Hcs. discriminate.
Defined.

(** C3. A configuration value ["<key>,<suffix>"] whose key, the part before
    the first comma, is none of the three recognized literals resolves to
    the key itself. *)
Theorem unknown_key_verbatim (key suffix : wstring) :
  ~ In comma key ->
  ~ In key recognized_keys ->
  windowTitle 0 (Some (key ++ L "," ++ suffix)) = key.
Proof. apply windowTitle_unknown_key. Qed.

Lemma unknown_key_verbatim_witness :
  windowTitle 0 (Some (L "FOO,bar")) = L "FOO".
Proof.
  apply (unknown_key_verbatim (L "FOO") (L "bar")).
  - cbv. intros H. repeat (destruct H as [H|H]; [discriminate|]). exact H.
  - cbv. intros H. repeat (destruct H as [H|H]; [discriminate|]). exact H.
Defined.

(** C4. Two configuration values with the same part before their first
    comma resolve to the same title, whatever follows the comma. *)
Theorem title_depends_on_key_only (err : errno_t) (key rest1 rest2 : wstring) :
  ~ In comma key ->
  windowTitle err (Some (key ++ L "," ++ rest1)) =
  windowTitle err (Some (key ++ L "," ++ rest2)).
Proof.
  intros Hk. destruct (Z.eqb_spec err 0) as [->|Hne].
  - change (L "," ++ rest1) with (comma :: rest1).
    change (L "," ++ rest2) with (comma :: rest2).
    rewrite !windowTitle_key by exact Hk. reflexivity.
  - rewrite !windowTitle_error by (apply Z.eqb_neq; exact Hne). reflexivity.
Qed.

Lemma title_depends_on_key_only_witness :
  windowTitle 0 (Some (L "EURUSD-h4,1.08" )) =
  windowTitle 0 (Some (L "EURUSD-h4,,%$#")).
Proof.
  apply (title_depends_on_key_only 0%Z (L "EURUSD-h4") (L "1.08") (L ",%$#")).
  cbv. intros H. repeat (destruct H as [H|H]; [discriminate|]). exact H.
Defined.

(** C9. A configuration value that begins with a comma resolves to the
    empty title, the empty key taken verbatim, and not to the default. *)
Theorem empty_key_title (rest : wstring) :
  windowTitle 0 (Some (L "," ++ rest)) = L "" /\
  windowTitle 0 (Some (L "," ++ rest)) <> L "EUR/USD Chart Viewer".
Proof. split; [reflexivity | discriminate]. Qed.

(** C10. The lookup compares keys exactly: a key that differs from a
    recognized literal in letter case only is used verbatim, and the
    title is none of the mapped ones. *)
Theorem key_match_case_sensitive (key literal suffix : wstring) :
  In literal recognized_keys ->
  same_up_to_case key literal ->
  key <> literal ->
  windowTitle 0 (Some (key ++ L "," ++ suffix)) = key /\
  ~ In (windowTitle 0 (Some (key ++ L "," ++ suffix))) mapped_titles.
Proof.
  intros Hl Hc Hne.
  assert (Ht : windowTitle 0 (Some (key ++ L "," ++ suffix)) = key);
    [|split; [exact Ht|]].
  2:{ rewrite Ht. intros Hk. unfold same_up_to_case in Hc.
      destruct Hl as [<-|[<-|[<-|[]]]]; destruct Hk as [<-|[<-|[<-|[]]]];
        discriminate Hc. }
  apply windowTitle_unknown_key.
  - intros Hin. apply (in_map towlower) in Hin. rewrite Hc in Hin.
    destruct Hl as [<-|[<-|[<-|[]]]]; cbv in Hin;
      repeat (destruct Hin as [Hin|Hin]; [discriminate|]); exact Hin.
  - intros Hk. unfold same_up_to_case in Hc.
    destruct Hl as [<-|[<-|[<-|[]]]]; destruct Hk as [<-|[<-|[<-|[]]]];
      solve [apply Hne; reflexivity | discriminate Hc].
Qed.

Lemma key_match_case_sensitive_witness :
  windowTitle 0 (Some (L "eurusd-m5,x")) = L "eurusd-m5" /\
  ~ In (windowTitle 0 (Some (L "eurusd-m5,x"))) mapped_titles.
Proof.
  apply (key_match_case_sensitive (L "eurusd-m5") (L "EURUSD-m5") (L "x")).
  - left. reflexivity.
  - reflexivity.
  - discriminate.
Defined.

(** ** The entry routine: the claims *)

Lemma failing_exit (w : World) :
  window_created w = false ->
  exits wWinMain w (after_calls (startup_calls w) w) EXIT_FAILURE.
Proof.
  intros Hc. apply wWinMain_exits. rewrite Hc. exists 1. reflexivity.
Qed.

Lemma normal_exit (w : World) (before after : list (BOOL * MSG)) (q : BOOL * MSG) :
  window_created w = true ->
  messages w = before ++ q :: after ->
  forallb (fun m => negb (is_quit m)) before = true ->
  is_quit q = true ->
  exits wWinMain w
    (set_state after (calls w ++ normal_calls w before) w) EXIT_SUCCESS.
Proof.
  intros Hc Hm Hb Hq. apply wWinMain_exits. rewrite Hc. cbn [negb].
  pose proof (run_window_exits (after_calls (startup_calls w) w)
                before after q Hm Hb Hq) as H.
  replace (set_state after (calls w ++ normal_calls w before) w)
    with (set_state after
            (calls (after_calls (startup_calls w) w) ++
             SetQuitOnClose true :: pump_calls before ++
             [GetMessage; CoUninitialize])
            (after_calls (startup_calls w) w)); [exact H|].
  unfold normal_calls, after_calls, set_state; cbn [calls messages].
  rewrite <- !app_assoc. reflexivity.
Qed.

Lemma created_exit_inv (w w' : World) (r : Z) :
  window_created w = true ->
  exits wWinMain w w' r ->
  r = EXIT_SUCCESS /\
  exists cs, calls w' = calls w ++ startup_calls w ++ cs ++ [CoUninitialize].
Proof.
  intros Hc H. apply wWinMain_exits in H. rewrite Hc in H. cbn [negb] in H.
  apply run_window_exits_inv in H as [-> [cs Hcs]]. split; [reflexivity|].
  exists cs. rewrite Hcs. unfold after_calls, set_state; cbn [calls].
  rewrite <- !app_assoc. reflexivity.
Qed.

(** When [Create] fails, the calls made up to any point of the run are
    among the start-up calls. *)
Lemma failing_run_calls (w : World) (fuel : nat) :
  window_created w = false ->
  exists cs rest,
    calls (world_of (run fuel wWinMain w)) = calls w ++ cs /\
    startup_calls w = cs ++ rest.
Proof.
  intros Hc.
  destruct (run_calls_extend fuel wWinMain w) as [cs Hcs].
  destruct (run_calls_prefix fuel wWinMain w
              (List.length (startup_calls w) + S fuel) ltac:(lia)) as [rest Hr].
  rewrite startup, Hc, Hcs in Hr. cbn [negb run observe _observe world_of] in Hr.
  unfold after_calls, set_state in Hr; cbn [calls] in Hr.
  rewrite <- app_assoc in Hr. apply app_inv_head in Hr.
  exists cs, rest. split; assumption.
Qed.

(** C5. When [Create] fails the routine returns [EXIT_FAILURE], which is
    not zero, right after the [Create] call, and at no point of the run
    has it called [GetMessage]; when [Create] succeeds the routine never
    returns [EXIT_FAILURE]. *)
Theorem creation_failure_exits (w : World) :
  (window_created w = false ->
   exits wWinMain w (after_calls (startup_calls w) w) EXIT_FAILURE /\
   EXIT_FAILURE <> 0%Z /\
   (exists cs, startup_calls w = cs ++ [create_call w]) /\
   (forall fuel,
      exists cs, calls (world_of (run fuel wWinMain w)) = calls w ++ cs /\
                 ~ In GetMessage cs)) /\
  (window_created w = true ->
   forall w' r, exits wWinMain w w' r -> r <> EXIT_FAILURE).
Proof.
  split.
  - intros Hc. split; [apply failing_exit; exact Hc|].
    split; [discriminate|]. split.
    + unfold startup_calls. eexists. rewrite !app_assoc. reflexivity.
    + intros fuel.
      destruct (failing_run_calls w fuel Hc) as (cs & rest & Hcs & Hs).
      exists cs. split; [exact Hcs|]. intros Hin.
      apply (proj1 (startup_calls_kinds w)). rewrite Hs.
      apply in_or_app. left. exact Hin.
  - intros Hc w' r H. apply (created_exit_inv _ _ _ Hc) in H as [-> _].
    discriminate.
Qed.

Lemma creation_failure_exits_witness :
  (exits wWinMain (example_world false None paint_then_quit)
     (after_calls (startup_calls (example_world false None paint_then_quit))
        (example_world false None paint_then_quit)) EXIT_FAILURE /\
   EXIT_FAILURE <> 0%Z /\
   (exists cs, startup_calls (example_world false None paint_then_quit) =
               cs ++ [create_call (example_world false None paint_then_quit)]) /\
   (forall fuel,
      exists cs,
        calls (world_of (run fuel wWinMain (example_world false None paint_then_quit))) =
          calls (example_world false None paint_then_quit) ++ cs /\
        ~ In GetMessage cs)) /\
  EXIT_SUCCESS <> EXIT_FAILURE.
Proof.
  split.
  - apply (proj1 (creation_failure_exits (example_world false None paint_then_quit))).
    reflexivity.
  - apply (proj2 (creation_failure_exits (example_world true None paint_then_quit))
             eq_refl
             (world_of (run 20 wWinMain (example_world true None paint_then_quit)))
             EXIT_SUCCESS).
    exists 20. vm_compute. reflexivity.
Defined.

(** C6. COM is released on the normal exit path, after the message loop;
    on the exit path of a failed [Create] the routine returns with COM
    initialised and without a [CoUninitialize]; whenever the routine
    returns, it has called [CoUninitialize] if and only if it returns
    [EXIT_SUCCESS]. *)
Theorem teardown_iff_normal_exit (w : World) :
  (window_created w = true -> existsb is_quit (messages w) = true ->
   exists w' cs,
     exits wWinMain w w' EXIT_SUCCESS /\
     calls w' = calls w ++ cs ++ [CoUninitialize] /\ In GetMessage cs) /\
  (window_created w = false ->
   exists w',
     exits wWinMain w w' EXIT_FAILURE /\
     calls w' = calls w ++ startup_calls w /\
     In (CoInitializeEx COINIT_APARTMENTTHREADED) (startup_calls w) /\
     ~ In CoUninitialize (startup_calls w)) /\
  (forall w' r,
     exits wWinMain w w' r ->
     exists cs, calls w' = calls w ++ cs /\
                (In CoUninitialize cs <-> r = EXIT_SUCCESS)).
Proof.
  split; [|split].
  - intros Hc Hq.
    destruct (quit_split _ Hq) as (before & q & after & Hm & Hb & Hq').
    eexists. exists (startup_calls w ++ SetQuitOnClose true :: pump_calls before ++ [GetMessage]).
    split; [apply (normal_exit w before after q Hc Hm Hb Hq')|].
    split.
    + unfold normal_calls, set_state; cbn [calls].
      rewrite <- !app_assoc. cbn [app]. rewrite <- !app_assoc. reflexivity.
    + apply in_or_app. right. right. apply in_or_app. right. left. reflexivity.
  - intros Hc. exists (after_calls (startup_calls w) w).
    split; [apply failing_exit; exact Hc|]. split; [reflexivity|].
    split; [|apply startup_calls_kinds].
    unfold startup_calls. apply in_or_app. right. left. reflexivity.
  - intros w' r H. destruct (window_created w) eqn:Hc.
    + apply (created_exit_inv _ _ _ Hc) in H as [-> [cs Hcs]].
      exists (startup_calls w ++ cs ++ [CoUninitialize]).
      split; [exact Hcs|]. split; [reflexivity|]. intros _.
      apply in_or_app. right. apply in_or_app. right. left. reflexivity.
    + destruct (exits_unique _ _ _ _ _ _ H (failing_exit w Hc)) as [-> ->].
      exists (startup_calls w). split; [reflexivity|].
      split; [intros Hin; destruct (proj2 (startup_calls_kinds w) Hin) | discriminate].
Qed.

Lemma teardown_iff_normal_exit_witness :
  (exists w' cs,
     exits wWinMain (example_world true None paint_then_quit) w' EXIT_SUCCESS /\
     calls w' = calls (example_world true None paint_then_quit) ++
                cs ++ [CoUninitialize] /\
     In GetMessage cs) /\
  (exists w',
     exits wWinMain (example_world false None paint_then_quit) w' EXIT_FAILURE /\
     calls w' = calls (example_world false None paint_then_quit) ++
                startup_calls (example_world false None paint_then_quit) /\
     In (CoInitializeEx COINIT_APARTMENTTHREADED)
        (startup_calls (example_world false None paint_then_quit)) /\
     ~ In CoUninitialize (startup_calls (example_world false None paint_then_quit))) /\
  (exists cs,
     calls (world_of (run 20 wWinMain (example_world true None paint_then_quit))) =
       calls (example_world true None paint_then_quit) ++ cs /\
     (In CoUninitialize cs <-> EXIT_SUCCESS = EXIT_SUCCESS)).
Proof.
  split; [|split].
  - apply (proj1 (teardown_iff_normal_exit (example_world true None paint_then_quit)));
      reflexivity.
  - apply (proj1 (proj2 (teardown_iff_normal_exit
                           (example_world false None paint_then_quit)))).
    reflexivity.
  - apply (proj2 (proj2 (teardown_iff_normal_exit
                           (example_world true None paint_then_quit)))).
    exists 20. vm_compute. reflexivity.
Defined.

(** C7. Whatever [APP_CONFIG] holds, and when it is unset, the routine
    calls [Create] with the resolved title, origin (10,10) and size
    (1280,720), and at no point of a run has it created a window with
    another origin or size. *)
Theorem window_geometry_fixed (w : World) :
  Forall fixed_geometry (calls w) ->
  (exists cs,
     startup_calls w =
     cs ++ [Create (windowTitle (fst (environment w (L "APP_CONFIG")))
                                (snd (environment w (L "APP_CONFIG"))))
                   {| x := 10; y := 10 |} {| width := 1280; height := 720 |}]) /\
  (forall fuel,
     List.length (startup_calls w) <= fuel ->
     exists cs,
       calls (world_of (run fuel wWinMain w)) = calls w ++ startup_calls w ++ cs) /\
  (forall fuel, Forall fixed_geometry (calls (world_of (run fuel wWinMain w)))).
Proof.
  intros Hw. split; [|split].
  - unfold startup_calls. eexists. rewrite !app_assoc. reflexivity.
  - intros fuel Hle.
    replace fuel with (List.length (startup_calls w) + (fuel - List.length (startup_calls w)))
      by lia.
    rewrite startup.
    destruct (run_calls_extend (fuel - List.length (startup_calls w))
                (if negb (window_created w) then Ret EXIT_FAILURE else run_window)
                (after_calls (startup_calls w) w)) as [cs Hcs].
    exists cs. rewrite Hcs. unfold after_calls, set_state; cbn [calls].
    rewrite <- app_assoc. reflexivity.
  - intros fuel. apply (keeps_fixed_geometry fuel fuel w (le_n fuel) Hw).
Qed.

Lemma window_geometry_fixed_witness :
  (exists cs,
     startup_calls (example_world true (Some (L "FOO,bar")) paint_then_quit) =
     cs ++ [Create (L "FOO") {| x := 10; y := 10 |}
                   {| width := 1280; height := 720 |}]) /\
  (exists cs,
     startup_calls (example_world false None []) =
     cs ++ [Create (L "EUR/USD Chart Viewer") {| x := 10; y := 10 |}
                   {| width := 1280; height := 720 |}]).
Proof.
  split.
  - apply (window_geometry_fixed (example_world true (Some (L "FOO,bar")) paint_then_quit)).
    constructor.
  - apply (window_geometry_fixed (example_world false None [])).
    constructor.
Defined.

(** C8. When [Create] succeeds and a quit message arrives, the routine
    leaves the loop on that message, calls [CoUninitialize] last and
    returns [EXIT_SUCCESS], which is zero. *)
Theorem normal_exit_releases_com (w : World) :
  window_created w = true ->
  existsb is_quit (messages w) = true ->
  exists before q after,
    messages w = before ++ q :: after /\
    forallb (fun m => negb (is_quit m)) before = true /\
    is_quit q = true /\
    exits wWinMain w
      (set_state after
         (calls w ++ startup_calls w ++ SetQuitOnClose true ::
          pump_calls before ++ [GetMessage; CoUninitialize]) w)
      EXIT_SUCCESS /\
    EXIT_SUCCESS = 0%Z.
Proof.
  intros Hc Hq.
  destruct (quit_split _ Hq) as (before & q & after & Hm & Hb & Hq').
  exists before, q, after. repeat (split; [assumption|]).
  split; [|reflexivity]. apply (normal_exit w before after q Hc Hm Hb Hq').
Qed.

Lemma normal_exit_releases_com_witness :
  exists before q after,
    paint_then_quit = before ++ q :: after /\
    forallb (fun m => negb (is_quit m)) before = true /\
    is_quit q = true /\
    exits wWinMain (example_world true (Some (L "EURUSD-m5,x")) paint_then_quit)
      (set_state after
         (calls (example_world true (Some (L "EURUSD-m5,x")) paint_then_quit) ++
          startup_calls (example_world true (Some (L "EURUSD-m5,x")) paint_then_quit) ++
          SetQuitOnClose true ::
          pump_calls before ++ [GetMessage; CoUninitialize])
         (example_world true (Some (L "EURUSD-m5,x")) paint_then_quit))
      EXIT_SUCCESS /\
    EXIT_SUCCESS = 0%Z.
Proof.
  apply (normal_exit_releases_com
           (example_world true (Some (L "EURUSD-m5,x")) paint_then_quit));
    reflexivity.
Defined.

(** ** Where a run ends *)

(** An outcome other than [Running] is final. *)
Lemma run_stable {R : Type} (n : nat) :
  forall (t : itree winE R) (w : World) (m : nat),
    (forall w', run n t w <> Running w') -> n <= m -> run m t w = run n t w.
Proof.
  induction n as [|n IH]; intros t w m H Hle.
  - destruct (H w eq_refl).
  - destruct m as [|m]; [lia|]. cbn [run] in H |- *.
    destruct (observe t) as [v|t'|X e k]; [reflexivity | apply IH; [exact H|lia] |].
    destruct (handle e w) as [w1 [v|]]; [apply IH; [exact H|lia] | reflexivity].
Qed.

Lemma after_quit_split (before after : list (BOOL * MSG)) (q : BOOL * MSG) :
  forallb (fun m => negb (is_quit m)) before = true -> is_quit q = true ->
  after_quit (before ++ q :: after) = after /\
  loop_script (before ++ q :: after) = pump_calls before ++ [GetMessage] /\
  existsb is_quit (before ++ q :: after) = true.
Proof.
  intros Hb Hq. induction before as [|m before IH]; cbn.
  - rewrite Hq. auto.
  - cbn [forallb] in Hb. apply andb_true_iff in Hb as [Hm Hb].
    apply negb_true_iff in Hm. rewrite Hm. cbn.
    destruct (IH Hb) as (-> & -> & ->). auto.
Qed.

Lemma no_quit_script (ms : list (BOOL * MSG)) :
  existsb is_quit ms = false ->
  forallb (fun m => negb (is_quit m)) ms = true /\
  loop_script ms = pump_calls ms ++ [GetMessage].
Proof.
  induction ms as [|m ms IH]; cbn; [auto|].
  destruct (is_quit m); cbn; [discriminate|]. intros H.
  destruct (IH H) as [-> ->]. auto.
Qed.

(** Without a quit message the routine delivers the whole queue and then
    waits in [GetMessage] for ever. *)
Lemma run_window_blocks (w : World) (n : nat) :
  existsb is_quit (messages w) = false ->
  run (1 + (4 * List.length (messages w) + S n)) run_window w =
  Blocked (set_state []
             (calls w ++ SetQuitOnClose true :: pump_calls (messages w) ++ [GetMessage])
             w).
Proof.
  intros Hq. destruct (no_quit_script _ Hq) as [Hb _].
  unfold run_window. cbn [Nat.add]. step.
  rewrite (loop_pumps _ (S n) (messages w) (logged (SetQuitOnClose true) w) []
             (eq_sym (app_nil_r _)) Hb).
  rewrite loop_blocked by reflexivity. f_equal.
  unfold logged, set_state; cbn. rewrite <- !app_assoc. reflexivity.
Qed.

Lemma run_window_returns (w : World) (before after : list (BOOL * MSG))
    (q : BOOL * MSG) (n : nat) :
  messages w = before ++ q :: after ->
  forallb (fun m => negb (is_quit m)) before = true ->
  is_quit q = true ->
  run (1 + (4 * List.length before + (3 + n))) run_window w =
  Exited (set_state after
            (calls w ++ SetQuitOnClose true :: pump_calls before ++
             [GetMessage; CoUninitialize]) w)
         EXIT_SUCCESS.
Proof.
  intros Hm Hb Hq.
  unfold run_window. cbn [Nat.add]. step.
  rewrite (loop_pumps _ (S (S (S n))) before (logged (SetQuitOnClose true) w)
             (q :: after) Hm Hb).
  match goal with
  | |- run _ _ ?w0 = _ => rewrite (loop_quit _ (S (S n)) w0 q after eq_refl Hq)
  end.
  step. rewrite run_ret. f_equal.
  unfold logged, set_state; cbn. rewrite <- !app_assoc. reflexivity.
Qed.

Lemma wWinMain_settles (w : World) (fuel : nat) :
  steps_bound w <= fuel -> run fuel wWinMain w = final_outcome w.
Proof.
  unfold steps_bound, final_outcome, script. intros Hle.
  replace fuel with (List.length (startup_calls w) +
                     (fuel - List.length (startup_calls w))) by lia.
  rewrite startup.
  assert (Hf : 4 * List.length (messages w) + 4 <=
               fuel - List.length (startup_calls w)) by lia.
  revert Hf. generalize (fuel - List.length (startup_calls w)). clear Hle fuel.
  intros fuel Hle.
  destruct (window_created w) eqn:Hc; cbn [negb].
  - destruct (existsb is_quit (messages w)) eqn:Hq.
    + destruct (quit_split _ Hq) as (before & q & after & Hm & Hb & Hq').
      destruct (after_quit_split before after q Hb Hq') as (Ha & Hs & _).
      rewrite Hm, Ha, Hs. rewrite Hm, length_app in Hle. cbn [List.length] in Hle.
      replace fuel with (1 + (4 * List.length before +
                              (3 + (fuel - 4 * List.length before - 4)))) by lia.
      rewrite (run_window_returns (after_calls (startup_calls w) w)
                 before after q _ Hm Hb Hq').
      f_equal. unfold after_calls, set_state; cbn [calls messages].
      rewrite <- !app_assoc. reflexivity.
    + destruct (no_quit_script _ Hq) as [_ Hs]. rewrite Hs.
      replace fuel with (1 + (4 * List.length (messages w) +
                              S (fuel - 4 * List.length (messages w) - 2))) by lia.
      rewrite (run_window_blocks (after_calls (startup_calls w) w) _ Hq).
      f_equal. unfold after_calls, set_state; cbn [calls messages].
      rewrite <- !app_assoc, app_nil_r. reflexivity.
  - destruct fuel as [|fuel]; [lia|]. rewrite run_ret. f_equal.
    unfold after_calls, set_state. rewrite app_nil_r. reflexivity.
Qed.

Lemma calls_made_spec (fuel : nat) (w : World) :
  calls (world_of (run fuel wWinMain w)) = calls w ++ calls_made fuel w.
Proof.
  unfold calls_made. destruct (run_calls_extend fuel wWinMain w) as [cs ->].
  rewrite skipn_app, skipn_all, Nat.sub_diag. reflexivity.
Qed.

(** After enough steps the calls made are the script, and before that a
    part of it. *)
Lemma calls_made_final (fuel : nat) (w : World) :
  steps_bound w <= fuel -> calls_made fuel w = script w.
Proof.
  intros Hle. pose proof (calls_made_spec fuel w) as H.
  rewrite (wWinMain_settles w fuel Hle) in H. unfold final_outcome in H.
  destruct (window_created w); [destruct (existsb is_quit (messages w))|];
    cbn [world_of calls set_state] in H; apply app_inv_head in H; auto.
Qed.

Lemma calls_made_prefix (fuel : nat) (w : World) :
  exists rest, script w = calls_made fuel w ++ rest.
Proof.
  destruct (run_calls_prefix fuel wWinMain w (fuel + steps_bound w) ltac:(lia))
    as [rest Hr].
  rewrite !calls_made_spec, calls_made_final in Hr by lia.
  rewrite <- app_assoc in Hr. apply app_inv_head in Hr. eauto.
Qed.

Lemma calls_made_startup (fuel : nat) (w : World) :
  List.length (startup_calls w) <= fuel ->
  exists cs, calls_made fuel w = startup_calls w ++ cs.
Proof.
  intros Hle. pose proof (calls_made_spec fuel w) as H. revert H.
  replace fuel with (List.length (startup_calls w) +
                     (fuel - List.length (startup_calls w))) at 1 by lia.
  rewrite startup.
  destruct (run_calls_extend (fuel - List.length (startup_calls w))
              (if negb (window_created w) then Ret EXIT_FAILURE else run_window)
              (after_calls (startup_calls w) w)) as [cs ->].
  unfold after_calls, set_state; cbn [calls]. rewrite <- app_assoc.
  intros H. apply app_inv_head in H. eauto.
Qed.

(** ** What the script holds *)

Lemma calls_made_in_script (fuel : nat) (w : World) (c : call) :
  In c (calls_made fuel w) -> In c (script w).
Proof.
  intros H. destruct (calls_made_prefix fuel w) as [rest ->].
  apply in_or_app. left. exact H.
Qed.

Lemma loop_script_calls (ms : list (BOOL * MSG)) (c : call) :
  In c (loop_script ms) ->
  c = GetMessage \/
  exists m, In m ms /\ is_quit m = false /\
            (c = TranslateMessage (snd m) \/ c = DispatchMessage (snd m)).
Proof.
  induction ms as [|m ms IH]; cbn [loop_script].
  - intros [<-|[]]. left. reflexivity.
  - destruct (is_quit m) eqn:Hq.
    + intros [<-|[]]. left. reflexivity.
    + intros [<-|[<-|[<-|H]]]; [left; reflexivity| | |].
      * right. exists m. cbn. auto.
      * right. exists m. cbn. auto.
      * destruct (IH H) as [->|(m' & Hin & Hq' & Hc)]; [left; reflexivity|].
        right. exists m'. cbn. auto.
Qed.

Lemma script_cases (w : World) (c : call) :
  In c (script w) ->
  In c (console_calls w) \/
  In c [CoInitializeEx COINIT_APARTMENTTHREADED; DartProject (L "data");
        GetCommandLineArguments; set_dart_entrypoint_arguments (command_line w);
        FlutterWindow] \/
  In c (config_calls w) \/
  c = create_call w \/
  (window_created w = true /\ window_call c).
Proof.
  unfold script, startup_calls. intros H.
  apply in_app_or in H as [H|H].
  - apply in_app_or in H as [H|H]; [auto|].
    apply in_app_or in H as [H|H]; [auto|].
    apply in_app_or in H as [H|H]; [auto|].
    destruct H as [<-|[]]. auto.
  - do 4 right. destruct (window_created w); [|destruct H]. split; [reflexivity|].
    destruct H as [<-|H]; [exact I|].
    apply in_app_or in H as [H|H].
    + apply loop_script_calls in H as [->|(m & _ & _ & [->| ->])]; exact I.
    + destruct (existsb is_quit (messages w)); [|destruct H].
      destruct H as [<-|[]]. exact I.
Qed.

Ltac in_cases H :=
  repeat match type of H with
         | In _ (_ :: _) => destruct H as [H|H]; [try discriminate H|]
         | In _ [] => destruct H
         | In _ (if ?b then _ else _) => destruct b eqn:?
         | In _ (match ?x with Some _ => _ | None => _ end) => destruct x eqn:?
         | False => destruct H
         end.


(** ** Order and number of calls *)

Lemma precedes_prefix (a b : call) (l rest : list call) :
  precedes a b (l ++ rest) -> precedes a b l.
Proof.
  intros H pre post ->. apply (H pre (post ++ rest)).
  rewrite <- app_assoc. reflexivity.
Qed.

Lemma precedes_after (a b : call) (l1 l2 : list call) :
  a <> b -> ~ In b l1 -> precedes a b (l1 ++ a :: l2).
Proof.
  intros Hab Hb pre. revert l1 Hb.
  induction pre as [|x pre IH]; intros l1 Hb post H.
  - destruct l1 as [|y l1]; cbn in H; inversion H; subst.
    + destruct Hab. reflexivity.
    + destruct Hb. left. reflexivity.
  - destruct l1 as [|y l1]; cbn in H; inversion H; subst.
    + left. reflexivity.
    + right. apply (IH l1 (fun Hin => Hb (or_intror Hin)) post). assumption.
Qed.

Lemma precedes_absent (a b : call) (l : list call) :
  ~ In b l -> precedes a b l.
Proof.
  intros Hb pre post ->. destruct Hb. apply in_or_app. right. left. reflexivity.
Qed.

Lemma calls_made_precedes (a b : call) (w : World) (fuel : nat) :
  precedes a b (script w) -> precedes a b (calls_made fuel w).
Proof.
  destruct (calls_made_prefix fuel w) as [rest ->]. apply precedes_prefix.
Qed.


Lemma count_calls_app (p : call -> bool) (l1 l2 : list call) :
  count_calls p (l1 ++ l2) = count_calls p l1 + count_calls p l2.
Proof. unfold count_calls. rewrite filter_app, length_app. reflexivity. Qed.

Lemma count_calls_made_le (p : call -> bool) (w : World) (fuel : nat) :
  count_calls p (calls_made fuel w) <= count_calls p (script w).
Proof.
  destruct (calls_made_prefix fuel w) as [rest ->].
  rewrite count_calls_app. lia.
Qed.

Lemma count_calls_none (p : call -> bool) (l : list call) :
  (forall c, In c l -> p c = false) -> count_calls p l = 0.
Proof.
  unfold count_calls. induction l as [|x l IH]; intros H; [reflexivity|].
  cbn. rewrite (H x) by (left; reflexivity).
  apply IH. intros c Hc. apply H. right. exact Hc.
Qed.


Lemma script_window_part (w : World) :
  exists tail, script w = startup_calls w ++ tail /\
               (forall c, In c tail -> window_created w = true /\ window_call c).
Proof.
  unfold script. eexists. split; [reflexivity|]. intros c H.
  destruct (window_created w); [|destruct H]. split; [reflexivity|].
  destruct H as [<-|H]; [exact I|].
  apply in_app_or in H as [H|H].
  - apply loop_script_calls in H as [->|(m & _ & _ & [->| ->])]; exact I.
  - destruct (existsb is_quit (messages w)); [|destruct H].
    destruct H as [<-|[]]. exact I.
Qed.

Lemma count_script (p : call -> bool) (w : World) :
  (forall c, window_call c -> p c = false) ->
  count_calls p (script w) = count_calls p (startup_calls w).
Proof.
  intros Hp. destruct (script_window_part w) as (tail & -> & Ht).
  rewrite count_calls_app, (count_calls_none p tail); [lia|].
  intros c Hc. apply Hp. apply (Ht c Hc).
Qed.

Lemma count_startup_calls (w : World) :
  count_calls is_Create (startup_calls w) = 1 /\
  count_calls is_CoInitializeEx (startup_calls w) = 1 /\
  count_calls is_free (startup_calls w) <= 1.
Proof.
  unfold startup_calls, console_calls, config_calls, create_call.
  destruct (Z.eqb (attach_console w) 0), (Z.eqb (debugger_present w) 0),
    (Z.eqb (fst (environment w (L "APP_CONFIG"))) 0),
    (snd (environment w (L "APP_CONFIG")));
    cbn; repeat split; lia.
Qed.

Lemma precedes_app (a b : call) (l1 l2 : list call) :
  precedes a b l1 -> In a l1 \/ precedes a b l2 -> precedes a b (l1 ++ l2).
Proof.
  intros H1 H2 pre post H. apply app_eq_app in H as [l [[-> Hl]|[-> Hl]]].
  - destruct l as [|x l]; cbn in Hl.
    + rewrite app_nil_r in H2. destruct H2 as [H2|H2]; [exact H2|].
      destruct (H2 [] post (eq_sym Hl)).
    + inversion Hl; subst. apply (H1 pre l). reflexivity.
  - apply in_or_app. destruct H2 as [H2|H2]; [left; exact H2|].
    right. apply (H2 l post). exact Hl.
Qed.

Lemma precedes_cons_hit (a b : call) (l : list call) :
  a <> b -> precedes a b (a :: l).
Proof. intros H. apply (precedes_after a b [] l H). intros []. Qed.

(** ** Further properties of the routine *)

(** X1. A console is created exactly when [AttachConsole] fails and a
    debugger is present, and the debugger is asked about only when
    [AttachConsole] fails. *)
Theorem console_created_when_detached_under_debugger (w : World) (fuel : nat) :
  (In IsDebuggerPresent (calls_made fuel w) -> attach_console w = 0%Z) /\
  (In CreateAndAttachConsole (calls_made fuel w) ->
   attach_console w = 0%Z /\ debugger_present w <> 0%Z) /\
  (List.length (startup_calls w) <= fuel ->
   attach_console w = 0%Z -> debugger_present w <> 0%Z ->
   In CreateAndAttachConsole (calls_made fuel w)).
Proof.
  split; [|split].
  - intros H. apply calls_made_in_script, script_cases in H.
    destruct H as [H|[H|[H|[H|[_ H]]]]];
      try (unfold config_calls in H; in_cases H; fail);
      try discriminate H; try (destruct H; fail).
    unfold console_calls in H. in_cases H.
    all: apply Z.eqb_eq; assumption.
  - intros H. apply calls_made_in_script, script_cases in H.
    destruct H as [H|[H|[H|[H|[_ H]]]]];
      try (unfold config_calls in H; in_cases H; fail);
      try discriminate H; try (destruct H; fail).
    unfold console_calls in H. in_cases H.
    split; [apply Z.eqb_eq; assumption | apply Z.eqb_neq; assumption].
  - intros Hle Ha Hd. destruct (calls_made_startup fuel w Hle) as [cs ->].
    apply in_or_app. left. unfold startup_calls, console_calls.
    apply Z.eqb_eq in Ha. apply Z.eqb_neq in Hd. rewrite Ha, Hd.
    cbn. auto.
Qed.

Lemma console_created_when_detached_under_debugger_witness :
  In CreateAndAttachConsole (calls_made 12 (debugged_world false None [])) /\
  (attach_console (debugged_world false None []) = 0%Z /\
   debugger_present (debugged_world false None []) <> 0%Z).
Proof.
  assert (H : In CreateAndAttachConsole (calls_made 12 (debugged_world false None []))).
  { apply (proj2 (proj2 (console_created_when_detached_under_debugger
                           (debugged_world false None []) 12))).
    - vm_compute. lia.
    - reflexivity.
    - discriminate. }
  split; [exact H|].
  apply (proj1 (proj2 (console_created_when_detached_under_debugger
                         (debugged_world false None []) 12)) H).
Defined.

(** X2. The command-line arguments reach the Dart project exactly as
    [GetCommandLineArguments] returned them. *)
Theorem arguments_forwarded_unchanged (w : World) (fuel : nat) :
  (forall args,
     In (set_dart_entrypoint_arguments args) (calls_made fuel w) ->
     args = command_line w) /\
  precedes GetCommandLineArguments
    (set_dart_entrypoint_arguments (command_line w)) (calls_made fuel w) /\
  (List.length (startup_calls w) <= fuel ->
   In (set_dart_entrypoint_arguments (command_line w)) (calls_made fuel w)).
Proof.
  split; [|split].
  - intros args H. apply calls_made_in_script, script_cases in H.
    destruct H as [H|[H|[H|[H|[_ H]]]]];
      try (unfold config_calls in H; in_cases H; fail);
      try (unfold console_calls in H; in_cases H; fail);
      try discriminate H; try (destruct H; fail).
    in_cases H. inversion H. reflexivity.
  - apply calls_made_precedes. destruct (script_window_part w) as (tail & -> & _).
    unfold startup_calls.
    change (console_calls w ++
            [CoInitializeEx COINIT_APARTMENTTHREADED; DartProject (L "data");
             GetCommandLineArguments;
             set_dart_entrypoint_arguments (command_line w); FlutterWindow] ++
            config_calls w ++ [create_call w])
      with (console_calls w ++
            [CoInitializeEx COINIT_APARTMENTTHREADED; DartProject (L "data")] ++
            GetCommandLineArguments ::
            ([set_dart_entrypoint_arguments (command_line w); FlutterWindow] ++
             config_calls w ++ [create_call w])).
    rewrite app_assoc, <- app_assoc.
    apply precedes_after; [discriminate|].
    intros H. apply in_app_or in H as [H|H];
      [unfold console_calls in H|]; in_cases H.
  - intros Hle. destruct (calls_made_startup fuel w Hle) as [cs ->].
    apply in_or_app. left. unfold startup_calls.
    apply in_or_app. right. cbn. auto.
Qed.

Lemma arguments_forwarded_unchanged_witness :
  In (set_dart_entrypoint_arguments ["--verbose"%string])
     (calls_made 12 (debugged_world true None paint_then_quit)).
Proof.
  apply (proj2 (proj2 (arguments_forwarded_unchanged
                         (debugged_world true None paint_then_quit) 12))).
  vm_compute. lia.
Defined.

(** X3. The buffer of [_wdupenv_s] is freed exactly when the call
    succeeded and returned one, at most once, after the call that
    allocated it. *)
Theorem buffer_freed_when_returned (w : World) (fuel : nat) :
  (In free (calls_made fuel w) ->
   fst (environment w (L "APP_CONFIG")) = 0%Z /\
   snd (environment w (L "APP_CONFIG")) <> None) /\
  (List.length (startup_calls w) <= fuel ->
   fst (environment w (L "APP_CONFIG")) = 0%Z ->
   snd (environment w (L "APP_CONFIG")) <> None ->
   In free (calls_made fuel w)) /\
  count_calls is_free (calls_made fuel w) <= 1 /\
  precedes (wdupenv_s (L "APP_CONFIG")) free (calls_made fuel w).
Proof.
  split; [|split; [|split]].
  - intros H. apply calls_made_in_script, script_cases in H.
    destruct H as [H|[H|[H|[H|[_ H]]]]];
      try (unfold console_calls in H; in_cases H; fail);
      try discriminate H; try (destruct H; fail).
    unfold config_calls in H. in_cases H.
    split; [apply Z.eqb_eq; assumption | congruence].
  - intros Hle He Hb. destruct (calls_made_startup fuel w Hle) as [cs ->].
    apply in_or_app. left. unfold startup_calls, config_calls.
    apply Z.eqb_eq in He. rewrite He.
    destruct (snd (environment w (L "APP_CONFIG"))); [|congruence].
    apply in_or_app. right. apply in_or_app. right. cbn. auto.
  - pose proof (count_calls_made_le is_free w fuel) as H.
    rewrite count_script in H
      by (intros [] Hc; try destruct Hc; try reflexivity;
          destruct quit_on_close; auto; destruct Hc).
    pose proof (count_startup_calls w). lia.
  - apply calls_made_precedes. destruct (script_window_part w) as (tail & -> & Ht).
    apply precedes_app.
    + unfold startup_calls, config_calls.
      apply precedes_app;
        [apply precedes_absent; unfold console_calls; intros H; in_cases H|].
      right. apply precedes_app;
        [apply precedes_absent; intros H; in_cases H|].
      right. apply precedes_app; [apply precedes_cons_hit; discriminate|].
      left. left. reflexivity.
    + right. apply precedes_absent. intros H. destruct (Ht _ H) as [_ []].
Qed.

Lemma buffer_freed_when_returned_witness :
  In free (calls_made 12 (example_world true (Some (L "nocomma")) [])) /\
  (fst (environment (example_world true (Some (L "nocomma")) []) (L "APP_CONFIG")) = 0%Z /\
   snd (environment (example_world true (Some (L "nocomma")) []) (L "APP_CONFIG")) <> None).
Proof.
  assert (H : In free (calls_made 12 (example_world true (Some (L "nocomma")) []))).
  { apply (proj1 (proj2 (buffer_freed_when_returned
                           (example_world true (Some (L "nocomma")) []) 12))).
    - vm_compute. lia.
    - reflexivity.
    - discriminate. }
  split; [exact H|].
  apply (proj1 (buffer_freed_when_returned
                  (example_world true (Some (L "nocomma")) []) 12) H).
Defined.

(** X4. [Create] is never retried: a run calls it at most once, exactly
    once when the start-up is over, and always with the resolved title. *)
Theorem window_created_once (w : World) (fuel : nat) :
  count_calls is_Create (calls_made fuel w) <= 1 /\
  (List.length (startup_calls w) <= fuel ->
   count_calls is_Create (calls_made fuel w) = 1) /\
  (forall title origin size,
     In (Create title origin size) (calls_made fuel w) ->
     title = windowTitle (fst (environment w (L "APP_CONFIG")))
                         (snd (environment w (L "APP_CONFIG")))).
Proof.
  assert (Hs : count_calls is_Create (script w) = 1).
  { rewrite count_script
      by (intros [] Hc; try destruct Hc; try reflexivity;
          destruct quit_on_close; auto; destruct Hc).
    apply count_startup_calls. }
  pose proof (count_calls_made_le is_Create w fuel) as Hle.
  split; [lia|split].
  - intros Hf. destruct (calls_made_startup fuel w Hf) as [cs Hcs].
    rewrite Hcs, count_calls_app in *.
    pose proof (proj1 (count_startup_calls w)). lia.
  - intros title origin size H. apply calls_made_in_script, script_cases in H.
    destruct H as [H|[H|[H|[H|[_ H]]]]];
      try (unfold console_calls in H; in_cases H; fail);
      try (unfold config_calls in H; in_cases H; fail);
      try (destruct H; fail).
    inversion H. reflexivity.
Qed.

Lemma window_created_once_witness :
  count_calls is_Create (calls_made 30 (example_world true None paint_then_quit)) = 1.
Proof.
  apply (proj1 (proj2 (window_created_once
                         (example_world true None paint_then_quit) 30))).
  vm_compute. lia.
Defined.



Lemma startup_calls_not_window (w : World) (c : call) :
  In c (startup_calls w) -> ~ window_call c.
Proof.
  unfold startup_calls, console_calls, config_calls, create_call. intros H Hc.
  destruct (Z.eqb (attach_console w) 0), (Z.eqb (debugger_present w) 0),
    (Z.eqb (fst (environment w (L "APP_CONFIG"))) 0),
    (snd (environment w (L "APP_CONFIG")));
    cbn in H; repeat (destruct H as [H|H]; [subst; exact Hc|]); exact H.
Qed.

(** X6. The window is marked quit-on-close only after a successful
    [Create], always with [true], and before the first [GetMessage]. *)
Theorem quit_on_close_set_before_loop (w : World) (fuel : nat) :
  (forall b, In (SetQuitOnClose b) (calls_made fuel w) ->
             b = true /\ window_created w = true) /\
  precedes (create_call w) (SetQuitOnClose true) (calls_made fuel w) /\
  precedes (SetQuitOnClose true) GetMessage (calls_made fuel w) /\
  (window_created w = true -> S (List.length (startup_calls w)) <= fuel ->
   In (SetQuitOnClose true) (calls_made fuel w)).
Proof.
  split; [|split; [|split]].
  - intros b H. apply calls_made_in_script, script_cases in H.
    destruct H as [H|[H|[H|[H|[Hc H]]]]];
      try (unfold console_calls in H; in_cases H; fail);
      try (unfold config_calls in H; in_cases H; fail);
      try discriminate H.
    destruct b; [auto | destruct H].
  - apply calls_made_precedes. unfold script. apply precedes_app.
    + apply precedes_absent. intros H.
      apply (startup_calls_not_window w _ H). exact I.
    + left. unfold startup_calls. rewrite !app_assoc.
      apply in_or_app. right. left. reflexivity.
  - apply calls_made_precedes. unfold script. apply precedes_app.
    + apply precedes_absent. apply startup_calls_kinds.
    + right. destruct (window_created w).
      * apply precedes_cons_hit. discriminate.
      * apply precedes_absent. intros [].
  - intros Hc Hle.
    pose proof (calls_made_spec fuel w) as H. revert H.
    replace fuel with (List.length (startup_calls w) +
                       S (fuel - S (List.length (startup_calls w)))) at 1 by lia.
    rewrite startup, Hc. cbn [negb]. unfold run_window. step.
    match goal with
    | |- context [run ?n ?t ?w0] => destruct (run_calls_extend n t w0) as [cs ->]
    end.
    unfold logged, after_calls, set_state; cbn [calls].
    rewrite <- !app_assoc. intros H. apply app_inv_head in H. rewrite <- H.
    apply in_or_app. right. left. reflexivity.
Qed.

Lemma quit_on_close_set_before_loop_witness :
  In (SetQuitOnClose true) (calls_made 9 (example_world true None [])).
Proof.
  apply (proj2 (proj2 (proj2 (quit_on_close_set_before_loop
                                (example_world true None []) 9)))).
  - reflexivity.
  - vm_compute. lia.
Defined.

(** X7. The routine returns exactly when [Create] fails or some
    [GetMessage] returns zero; no other result of [GetMessage], the error
    result [-1] included, makes it return. *)
Theorem returns_iff_create_fails_or_quit (w : World) :
  (exists w' r, exits wWinMain w w' r) <->
  window_created w = false \/ exists m, In m (messages w) /\ fst m = 0%Z.
Proof.
  split.
  - intros (w' & r & n & Hn).
    apply (run_mono _ _ _ _ _ (n + steps_bound w)) in Hn; [|lia].
    rewrite wWinMain_settles in Hn by lia. unfold final_outcome in Hn.
    destruct (window_created w); [|left; reflexivity]. right.
    destruct (existsb is_quit (messages w)) eqn:Hq; [|discriminate].
    apply existsb_exists in Hq as (m & Hin & Hm). exists m.
    split; [exact Hin | apply Z.eqb_eq; exact Hm].
  - intros H. pose proof (wWinMain_settles w (steps_bound w) (le_n _)) as Hs.
    unfold final_outcome in Hs.
    destruct (window_created w); [|eexists; eexists; eexists; exact Hs].
    destruct H as [H|(m & Hin & Hm)]; [discriminate|].
    assert (Hq : existsb is_quit (messages w) = true).
    { apply existsb_exists. exists m. split; [exact Hin | apply Z.eqb_eq; exact Hm]. }
    rewrite Hq in Hs. eexists; eexists; eexists; exact Hs.
Qed.

(** X8. When [Create] succeeds and no quit message ever arrives, the
    routine never returns: it translates and dispatches every message in
    order, ends blocked in [GetMessage], and never calls
    [CoUninitialize]. *)
Theorem blocks_without_quit (w : World) :
  window_created w = true ->
  existsb is_quit (messages w) = false ->
  (forall fuel,
     steps_bound w <= fuel ->
     run fuel wWinMain w =
     Blocked (set_state []
                (calls w ++ startup_calls w ++ SetQuitOnClose true ::
                 pump_calls (messages w) ++ [GetMessage]) w)) /\
  (forall fuel w' r, run fuel wWinMain w <> Exited w' r) /\
  (forall fuel, ~ In CoUninitialize (calls_made fuel w)).
Proof.
  intros Hc Hq. split; [|split].
  - intros fuel Hle. rewrite (wWinMain_settles w fuel Hle).
    unfold final_outcome, script. rewrite Hc, Hq.
    destruct (no_quit_script _ Hq) as [_ ->].
    rewrite app_nil_r. reflexivity.
  - intros fuel w' r Hn.
    apply (run_mono _ _ _ _ _ (fuel + steps_bound w)) in Hn; [|lia].
    rewrite wWinMain_settles in Hn by lia. unfold final_outcome in Hn.
    rewrite Hc, Hq in Hn. discriminate.
  - intros fuel H. apply calls_made_in_script in H. unfold script in H.
    rewrite Hc, Hq, app_nil_r in H. apply in_app_or in H as [H|H].
    + destruct (proj2 (startup_calls_kinds w) H).
    + destruct H as [H|H]; [discriminate|].
      apply loop_script_calls in H as [H|(m & _ & _ & [H|H])]; discriminate.
Qed.

Lemma blocks_without_quit_witness :
  run 40 wWinMain
    (example_world true None
       [(1%Z, {| message := 15; wParam := 0; lParam := 0 |});
        ((-1)%Z, {| message := 15; wParam := 0; lParam := 0 |})]) =
  Blocked
    (set_state []
       (startup_calls (example_world true None []) ++
        [SetQuitOnClose true;
         GetMessage;
         TranslateMessage {| message := 15; wParam := 0; lParam := 0 |};
         DispatchMessage {| message := 15; wParam := 0; lParam := 0 |};
         GetMessage;
         TranslateMessage {| message := 15; wParam := 0; lParam := 0 |};
         DispatchMessage {| message := 15; wParam := 0; lParam := 0 |};
         GetMessage])
       (example_world true None [])).
Proof.
  apply (proj1 (blocks_without_quit
                  (example_world true None
                     [(1%Z, {| message := 15; wParam := 0; lParam := 0 |});
                      ((-1)%Z, {| message := 15; wParam := 0; lParam := 0 |})])
                  eq_refl eq_refl) 40).
  vm_compute. lia.
Defined.

Lemma precedes_cons_other (a b x : call) (l : list call) :
  x <> b -> precedes a b l -> precedes a b (x :: l).
Proof.
  intros Hx Hl. apply (precedes_app a b [x] l); [|right; exact Hl].
  apply precedes_absent. intros [H|[]]. exact (Hx H).
Qed.

Lemma MSG_eq_dec (m1 m2 : MSG) : {m1 = m2} + {m1 <> m2}.
Proof. decide equality; apply Z.eq_dec. Defined.

Lemma loop_script_translate_first (msg : MSG) (ms : list (BOOL * MSG)) :
  precedes (TranslateMessage msg) (DispatchMessage msg) (loop_script ms).
Proof.
  induction ms as [|m ms IH]; cbn [loop_script].
  - apply precedes_absent. intros [H|[]]. discriminate.
  - destruct (is_quit m).
    + apply precedes_absent. intros [H|[]]. discriminate.
    + apply precedes_cons_other; [discriminate|].
      destruct (MSG_eq_dec (snd m) msg) as [->|Hne].
      * apply precedes_cons_hit. discriminate.
      * apply precedes_cons_other; [discriminate|].
        apply precedes_cons_other; [congruence | exact IH].
Qed.

(** X9. The routine translates and dispatches only messages that
    [GetMessage] delivered with a non-zero result, and dispatches none
    that it has not translated first. *)
Theorem dispatched_messages_were_delivered (w : World) (fuel : nat) (msg : MSG) :
  (In (TranslateMessage msg) (calls_made fuel w) \/
   In (DispatchMessage msg) (calls_made fuel w) ->
   window_created w = true /\
   exists m, In m (messages w) /\ fst m <> 0%Z /\ snd m = msg) /\
  precedes (TranslateMessage msg) (DispatchMessage msg) (calls_made fuel w).
Proof.
  split.
  - intros H.
    assert (Hs : In (TranslateMessage msg) (script w) \/
                 In (DispatchMessage msg) (script w))
      by (destruct H as [H|H]; [left|right]; apply (calls_made_in_script _ _ _ H)).
    clear H.
    assert (Hw : forall c, (c = TranslateMessage msg \/ c = DispatchMessage msg) ->
                           In c (script w) ->
                           window_created w = true /\
                           exists m, In m (messages w) /\ fst m <> 0%Z /\ snd m = msg).
    { intros c Hc Hin. unfold script in Hin. apply in_app_or in Hin as [Hin|Hin].
      - exfalso. apply (startup_calls_not_window w c Hin).
        destruct Hc as [-> | ->]; exact I.
      - destruct (window_created w); [|destruct Hin]. split; [reflexivity|].
        destruct Hin as [Hin|Hin]; [destruct Hc; subst; discriminate|].
        apply in_app_or in Hin as [Hin|Hin].
        + apply loop_script_calls in Hin as [->|(m & Hm & Hq & Hin)];
            [destruct Hc; discriminate|].
          exists m. split; [exact Hm|]. split; [apply Z.eqb_neq; exact Hq|].
          destruct Hc as [-> | ->], Hin as [Hin|Hin]; congruence.
        + destruct (existsb is_quit (messages w)); [|destruct Hin].
          destruct Hin as [<-|[]]. destruct Hc; discriminate. }
    destruct Hs as [Hs|Hs]; [apply (Hw _ (or_introl eq_refl) Hs) | apply (Hw _ (or_intror eq_refl) Hs)].
  - apply calls_made_precedes. unfold script. apply precedes_app.
    + apply precedes_absent. intros H.
      apply (startup_calls_not_window w _ H). exact I.
    + right. destruct (window_created w); [|apply precedes_absent; intros []].
      apply precedes_cons_other; [discriminate|].
      apply precedes_app; [apply loop_script_translate_first|].
      right. apply precedes_absent.
      destruct (existsb is_quit (messages w)); [intros [H|[]]; discriminate | intros []].
Qed.

Lemma dispatched_messages_were_delivered_witness :
  window_created (example_world true None paint_then_quit) = true /\
  exists m, In m paint_then_quit /\ fst m <> 0%Z /\
            snd m = {| message := 15; wParam := 0; lParam := 0 |}.
Proof.
  apply (proj1 (dispatched_messages_were_delivered
                  (example_world true None paint_then_quit) 30
                  {| message := 15; wParam := 0; lParam := 0 |})).
  right. vm_compute. auto 20.
Defined.

Lemma final_outcome_with_co_initialize (hr : HRESULT) (w : World) :
  final_outcome (with_co_initialize hr w) =
  map_outcome (with_co_initialize hr) (final_outcome w).
Proof.
  unfold final_outcome.
  change (window_created (with_co_initialize hr w)) with (window_created w).
  change (messages (with_co_initialize hr w)) with (messages w).
  destruct (window_created w); [destruct (existsb is_quit (messages w))|];
    reflexivity.
Qed.

(** X10. The result of [CoInitializeEx] is never looked at: whatever it
    is, the run ends the same way after the same calls. *)
Theorem com_init_result_ignored (w : World) (hr : HRESULT) (fuel : nat) :
  steps_bound w <= fuel ->
  run fuel wWinMain (with_co_initialize hr w) =
  map_outcome (with_co_initialize hr) (run fuel wWinMain w).
Proof.
  intros Hle. rewrite (wWinMain_settles w fuel Hle).
  rewrite wWinMain_settles by exact Hle.
  apply final_outcome_with_co_initialize.
Qed.

Lemma com_init_result_ignored_witness :
  run 30 wWinMain
    (with_co_initialize (-2147417850)%Z (example_world true None paint_then_quit)) =
  map_outcome (with_co_initialize (-2147417850)%Z)
    (run 30 wWinMain (example_world true None paint_then_quit)).
Proof.
  apply (com_init_result_ignored (example_world true None paint_then_quit)
           (-2147417850)%Z 30).
  vm_compute. lia.
Defined.

(** X11. Of the environment the routine reads [APP_CONFIG] and nothing
    else: two environments that agree on it give the same run. *)
Theorem only_app_config_is_read (w : World)
    (env : wstring -> errno_t * option wstring) (fuel : nat) :
  env (L "APP_CONFIG") = environment w (L "APP_CONFIG") ->
  (forall varname, In (wdupenv_s varname) (calls_made fuel w) ->
                   varname = L "APP_CONFIG") /\
  (steps_bound w <= fuel ->
   run fuel wWinMain (with_environment env w) =
   map_outcome (with_environment env) (run fuel wWinMain w)).
Proof.
  intros He. split.
  - intros varname H. apply calls_made_in_script, script_cases in H.
    destruct H as [H|[H|[H|[H|[_ H]]]]];
      try (unfold console_calls in H; in_cases H; fail);
      try discriminate H; try (destruct H; fail).
    unfold config_calls in H. destruct H as [H|H]; [inversion H; reflexivity|].
    in_cases H.
  - intros Hle.
    assert (Hs : startup_calls (with_environment env w) = startup_calls w).
    { unfold startup_calls, console_calls, config_calls, create_call,
        configured_title; cbn [environment with_environment attach_console
                               debugger_present command_line].
      rewrite He. reflexivity. }
    assert (Hb : steps_bound (with_environment env w) = steps_bound w)
      by (unfold steps_bound; rewrite Hs; reflexivity).
    rewrite (wWinMain_settles w fuel Hle).
    rewrite wWinMain_settles by (rewrite Hb; exact Hle).
    unfold final_outcome, script. rewrite Hs.
    change (window_created (with_environment env w)) with (window_created w).
    change (messages (with_environment env w)) with (messages w).
    destruct (window_created w); [destruct (existsb is_quit (messages w))|];
      reflexivity.
Qed.

Lemma only_app_config_is_read_witness :
  run 30 wWinMain
    (with_environment
       (fun varname => if eqb varname (L "APP_CONFIG")
                       then (0%Z, Some (L "EURUSD-h4,1"))
                       else (22%Z, Some (L "PATH,x")))
       (example_world true (Some (L "EURUSD-h4,1")) paint_then_quit)) =
  map_outcome
    (with_environment
       (fun varname => if eqb varname (L "APP_CONFIG")
                       then (0%Z, Some (L "EURUSD-h4,1"))
                       else (22%Z, Some (L "PATH,x"))))
    (run 30 wWinMain (example_world true (Some (L "EURUSD-h4,1")) paint_then_quit)).
Proof.
  apply (proj2 (only_app_config_is_read
                  (example_world true (Some (L "EURUSD-h4,1")) paint_then_quit)
                  (fun varname => if eqb varname (L "APP_CONFIG")
                                  then (0%Z, Some (L "EURUSD-h4,1"))
                                  else (22%Z, Some (L "PATH,x")))
                  30 eq_refl)).
  vm_compute. lia.
Defined.

(** ** Further properties of the title *)

Lemma find_Some_split (s : wstring) (c : wchar_t) :
  forall i, find s c = Some i ->
            s = substr s 0 i ++ c :: skipn (S i) s /\ ~ In c (substr s 0 i).
Proof.
  unfold substr. cbn [skipn].
  induction s as [|x s IH]; intros i H; cbn [find] in H; [discriminate|].
  destruct (N.eqb_spec x c) as [->|Hne].
  - inversion H; subst. cbn. auto.
  - destruct (find s c) as [j|]; [|discriminate]. inversion H; subst.
    destruct (IH j eq_refl) as [Hs Hn]. cbn [firstn skipn app].
    split; [f_equal; exact Hs|].
    intros [Hx|Hin]; [exact (Hne Hx) | exact (Hn Hin)].
Qed.

(** X12. The title never holds the separator: whatever the configuration
    value, no comma reaches the window title. *)
Theorem title_has_no_comma (err : errno_t) (configEnv : option wstring) :
  ~ In comma (windowTitle err configEnv).
Proof.
  assert (Hd : forall t, In t (default_title :: mapped_titles) -> ~ In comma t).
  { intros t Ht Hin. cbv in Ht.
    repeat (destruct Ht as [<-|Ht];
            [cbv in Hin; repeat (destruct Hin as [Hin|Hin]; [discriminate|]);
             exact Hin|]).
    exact Ht. }
  unfold windowTitle.
  destruct (Z.eqb err 0); [|apply Hd; cbn; auto].
  destruct configEnv as [cs|]; [|apply Hd; cbn; auto]. cbv zeta.
  destruct (find cs comma) as [pos|] eqn:Hf; [|apply Hd; cbn; auto].
  destruct (eqb (substr cs 0 pos) (L "EURUSD-m5")); [apply Hd; cbn; auto|].
  destruct (eqb (substr cs 0 pos) (L "EURUSD-m30")); [apply Hd; cbn; auto|].
  destruct (eqb (substr cs 0 pos) (L "EURUSD-h4")); [apply Hd; cbn; auto 6|].
  apply (find_Some_split cs comma pos Hf).
Qed.


(** X14. A failing [_wdupenv_s] is not fatal: the window is still
    created, under the default title, and nothing is freed. *)
Theorem environment_error_is_not_fatal (w : World) (fuel : nat) :
  fst (environment w (L "APP_CONFIG")) <> 0%Z ->
  List.length (startup_calls w) <= fuel ->
  In (Create (L "EUR/USD Chart Viewer") {| x := 10; y := 10 |}
             {| width := 1280; height := 720 |}) (calls_made fuel w) /\
  ~ In free (calls_made fuel w).
Proof.
  intros He Hle. apply Z.eqb_neq in He. split.
  - destruct (calls_made_startup fuel w Hle) as [cs ->].
    apply in_or_app. left. unfold startup_calls, create_call, configured_title.
    rewrite (windowTitle_error _ _ He), !app_assoc.
    apply in_or_app. right. left. reflexivity.
  - intros H. apply calls_made_in_script, script_cases in H.
    destruct H as [H|[H|[H|[H|[_ H]]]]];
      try (unfold console_calls in H; in_cases H; fail);
      try discriminate H; try (destruct H; fail).
    unfold config_calls in H. rewrite He in H. in_cases H.
Qed.

Lemma environment_error_is_not_fatal_witness :
  In (Create (L "EUR/USD Chart Viewer") {| x := 10; y := 10 |}
             {| width := 1280; height := 720 |})
     (calls_made 12
        (with_environment (fun _ => (12%Z, Some (L "EURUSD-m5,x")))
           (example_world true None []))) /\
  ~ In free
      (calls_made 12
         (with_environment (fun _ => (12%Z, Some (L "EURUSD-m5,x")))
            (example_world true None []))).
Proof.
  apply (environment_error_is_not_fatal
           (with_environment (fun _ => (12%Z, Some (L "EURUSD-m5,x")))
              (example_world true None []))
           12).
  - discriminate.
  - vm_compute. lia.
Defined.
